(** * ink-mini-code-editor: the text / cursor / decoration engine of [TextInput]

    A shallow embedding of [source/index.tsx] (the decoration-aware
    [TextInput] component, and the render of the earlier component without
    decorations) and of the demo of [source/demo.tsx], with the properties
    the specification states about them and further properties of the
    code.

    Conventions of the embedding:
    - a JavaScript string is the list of its code units ([JS.text]); every
      index and length is counted in code units, as [String.prototype.length]
      and [String.prototype.slice] do;
    - a JavaScript number that the component uses as an index or a length is
      an integer, modelled in [Z] (negative values and values past the end of
      the text are kept, since the component can store both);
    - the callbacks of the component ([setState], [onChange], [onSubmit],
      [onSuggestionAccept]) are modelled by the list of calls a handler makes,
      in the order the source makes them. *)

From Stdlib Require Import ZArith List Bool Lia Ascii String.
From Stdlib Require Import ListSet Permutation Orders Sorted Mergesort.
Import ListNotations.
Open Scope Z_scope.

(** ** JavaScript strings *)

Module JS.

Definition text : Type := list ascii.

(** A string literal, for examples. *)
Definition str (s : string) : text := list_ascii_of_string s.

(** [s.length] *)
Definition length (s : text) : Z := Z.of_nat (List.length s).

(** The index resolution of [String.prototype.slice]: a negative index
    counts from the end, and the result is clamped into [0, len]. *)
Definition rel_index (len k : Z) : Z :=
  if k <? 0 then Z.max (len + k) 0 else Z.min k len.

(** [s.slice(from, to)] *)
Definition slice (s : text) (from to : Z) : text :=
  let len := length s in
  let a := rel_index len from in
  let b := rel_index len to in
  firstn (Z.to_nat (b - a)) (skipn (Z.to_nat a) s).

(** [s.slice(from)] *)
Definition slice_from (s : text) (from : Z) : text :=
  slice s from (length s).

(** [s.startsWith(p)] *)
Fixpoint startsWith (s p : text) {struct p} : bool :=
  match p, s with
  | [], _ => true
  | c :: p', d :: s' => Ascii.eqb c d && startsWith s' p'
  | _ :: _, [] => false
  end.

(** [a === b] on strings *)
Fixpoint eqb (a b : text) : bool :=
  match a, b with
  | [], [] => true
  | c :: a', d :: b' => Ascii.eqb c d && eqb a' b'
  | _, _ => false
  end.

(** Truthiness of a string: the empty string is falsy. *)
Definition truthy (s : text) : bool :=
  match s with [] => false | _ :: _ => true end.

(** [s.repeat(n)] for [n >= 0] *)
Definition repeat (s : text) (n : Z) : text :=
  List.concat (List.repeat s (Z.to_nat n)).

(** [s[i] ?? ''], for an integer [i]: the code unit at [i] as a text, the
    empty text when there is none. *)
Definition charAt (s : text) (i : Z) : text :=
  if (0 <=? i) && (i <? length s) then firstn 1 (skipn (Z.to_nat i) s)
  else [].

(** [toLowerCase] on one code unit below 256: the letters A-Z and the
    capital letters of Latin-1 (all of U+00C0-U+00DE but the multiplication
    sign) move 32 places up. *)
Definition toLowerCaseUnit (c : ascii) : ascii :=
  let n := N_of_ascii c in
  if ((65 <=? n) && (n <=? 90)
      || (192 <=? n) && (n <=? 222) && negb (n =? 215))%N
  then ascii_of_N (n + 32)
  else c.

(** [s.toLowerCase()] *)
Definition toLowerCase (s : text) : text := map toLowerCaseUnit s.

(** White space and line terminators below 256: tab, line feed, vertical
    tab, form feed, carriage return, space and no-break space. *)
Definition isWhiteSpace (c : ascii) : bool :=
  let n := N_of_ascii c in
  ((9 <=? n) && (n <=? 13) || (n =? 32) || (n =? 160))%N.

Fixpoint trimStart (s : text) : text :=
  match s with
  | c :: s' => if isWhiteSpace c then trimStart s' else s
  | [] => []
  end.

(** [s.trim()] *)
Definition trim (s : text) : text := rev (trimStart (rev (trimStart s))).

End JS.

(** ** Decorations and their styles *)

Inductive DecorationStyle : Type := error | warning | info | highlight.

Module Decoration.
Record t : Type := mk { start : Z; end_ : Z; style : DecorationStyle }.
End Decoration.

(** A value of a [TextProps] attribute. *)
Inductive PropValue : Type :=
| VStr (s : string)
| VBool (b : bool).

(** A [Partial<TextProps>] object: its own properties, in insertion order. *)
Definition TextProps : Type := list (string * PropValue).


(** [o[k] = v]: an existing property keeps its place, a new one is added
    last. *)
Fixpoint obj_set (k : string) (v : PropValue) (o : TextProps) : TextProps :=
  match o with
  | [] => [(k, v)]
  | (k', v') :: o' =>
      if String.eqb k k' then (k', v) :: o' else (k', v') :: obj_set k v o'
  end.

(** [Object.assign(target, source)] *)
Definition Object_assign (target source : TextProps) : TextProps :=
  fold_left (fun t kv => obj_set (fst kv) (snd kv) t) source target.

Definition decorationStyles (s : DecorationStyle) : TextProps :=
  match s with
  | error => [("color", VStr "red"); ("underline", VBool true)]
  | warning => [("color", VStr "yellow"); ("underline", VBool true)]
  | info => [("color", VStr "blue"); ("underline", VBool true)]
  | highlight => [("backgroundColor", VStr "yellow")]
  end%string.

(** [mergeDecorationStyles]: [undefined] for no decoration, else the styles
    of the decorations assigned one after the other into a fresh object. *)
Definition mergeDecorationStyles (decorations : list Decoration.t)
  : option TextProps :=
  match decorations with
  | [] => None
  | _ :: _ =>
      Some (fold_left
              (fun merged dec =>
                 Object_assign merged (decorationStyles (Decoration.style dec)))
              decorations [])
  end.

(** ** Segments *)

Module Segment.
Record t : Type := mk {
  text : JS.text;
  start : Z;
  end_ : Z;
  isCursor : bool;
  decorations : list Decoration.t
}.
End Segment.

(** Numeric order, for [sort((a, b) => a - b)]. *)
Module ZOrder <: TotalLeBool.
Definition t : Type := Z.
Definition leb : Z -> Z -> bool := Z.leb.
Lemma leb_total : forall a1 a2, leb a1 a2 = true \/ leb a2 a1 = true.
Proof. intros a1 a2. unfold leb. rewrite !Z.leb_le. lia. Qed.
End ZOrder.

Module ZSort := Sort ZOrder.

(** A JavaScript [Set<number>]: its members in insertion order, each once. *)
Definition NumSet : Type := list Z.

(** [set.add(x)] *)
Definition Set_add (x : Z) (s : NumSet) : NumSet := set_add Z.eq_dec x s.

(** The decoration with its bounds clamped into [0, value.length]. *)
Definition clampDecoration (len : Z) (dec : Decoration.t) : Decoration.t :=
  Decoration.mk
    (Z.max 0 (Z.min (Decoration.start dec) len))
    (Z.max 0 (Z.min (Decoration.end_ dec) len))
    (Decoration.style dec).

Definition clampedDecorations (value : JS.text)
  (decorations : list Decoration.t) : list Decoration.t :=
  map (clampDecoration (JS.length value)) decorations.

(** One turn of the loop that adds the decoration boundaries. *)
Definition addDecorationPoints (s : NumSet) (dec : Decoration.t) : NumSet :=
  if Decoration.start dec <? Decoration.end_ dec
  then Set_add (Decoration.end_ dec) (Set_add (Decoration.start dec) s)
  else s.

Definition splitPoints (value : JS.text) (cursorOffset : Z)
  (clamped : list Decoration.t) (showCursor : bool) : NumSet :=
  let len := JS.length value in
  let s0 := Set_add len (Set_add 0 []) in
  let s1 :=
    if showCursor then
      let s := Set_add cursorOffset s0 in
      if cursorOffset <? len then Set_add (cursorOffset + 1) s else s
    else s0 in
  fold_left addDecorationPoints clamped s1.

(** The sorted, filtered split points. *)
Definition points (value : JS.text) (cursorOffset : Z)
  (clamped : list Decoration.t) (showCursor : bool) : list Z :=
  filter (fun p => (0 <=? p) && (p <=? JS.length value))
         (ZSort.sort (splitPoints value cursorOffset clamped showCursor)).

(** The overlap test of the segment loop. *)
Definition overlaps (start end_ : Z) (dec : Decoration.t) : bool :=
  (Decoration.start dec <? end_) && (Decoration.end_ dec >? start).

Definition makeSegment (value : JS.text) (cursorOffset : Z)
  (clamped : list Decoration.t) (showCursor : bool) (start end_ : Z)
  : Segment.t :=
  Segment.mk
    (JS.slice value start end_)
    start end_
    (showCursor && (start =? cursorOffset) && (end_ =? cursorOffset + 1))
    (filter (overlaps start end_) clamped).

(** The segment loop: one segment per pair of consecutive points. *)
Fixpoint segmentsOf (value : JS.text) (cursorOffset : Z)
  (clamped : list Decoration.t) (showCursor : bool) (pts : list Z)
  : list Segment.t :=
  match pts with
  | start :: ((end_ :: _) as rest) =>
      makeSegment value cursorOffset clamped showCursor start end_
      :: segmentsOf value cursorOffset clamped showCursor rest
  | _ => []
  end.

Definition createSegments (value : JS.text) (cursorOffset : Z)
  (decorations : list Decoration.t) (showCursor : bool) : list Segment.t :=
  let clamped := clampedDecorations value decorations in
  segmentsOf value cursorOffset clamped showCursor
    (points value cursorOffset clamped showCursor).

(** ** The component: props, state and key events *)

Record Props : Type := {
  value : JS.text;                       (* [originalValue] *)
  placeholder : JS.text;
  focus : bool;
  mask : option JS.text;
  highlightPastedText : bool;
  showCursor : bool;
  onSubmit : bool;                       (* is the callback supplied? *)
  language : option JS.text;
  getSuggestion : option (JS.text -> option JS.text);
  onSuggestionAccept : bool;             (* is the callback supplied? *)
  decorations : list Decoration.t
}.

Record State : Type := { cursorOffset : Z; cursorWidth : Z }.

(** The [key] object that ink hands to a [useInput] handler. *)
Record Key : Type := {
  upArrow : bool;
  downArrow : bool;
  leftArrow : bool;
  rightArrow : bool;
  return_ : bool;
  ctrl : bool;
  shift : bool;
  tab : bool;
  backspace : bool;
  delete : bool
}.

(** A call the component makes: a state update or a notification. *)
Inductive Call : Type :=
| SetState (s : State)
| OnChange (v : JS.text)
| OnSubmit (v : JS.text)
| OnSuggestionAccept (v : JS.text).

(** The initial state of [useState]. *)
Definition initialState (p : Props) : State :=
  {| cursorOffset := JS.length (value p); cursorWidth := 0 |}.

(** The state updater of the [useEffect] that follows a change of
    [originalValue], [focus] or [showCursor]. *)
Definition reconcile (p : Props) (previousState : State) : State :=
  if negb (focus p) || negb (showCursor p) then previousState
  else
    let newValue := value p in
    if cursorOffset previousState >? JS.length newValue - 1
    then {| cursorOffset := JS.length newValue; cursorWidth := 0 |}
    else previousState.

(** The suggestion the component takes as valid: the provider returned a
    non-empty string that starts with the value and differs from it. *)
Definition validSuggestion (suggest : JS.text -> option JS.text)
  (originalValue : JS.text) : option JS.text :=
  match suggest originalValue with
  | Some suggestion =>
      if JS.truthy suggestion
         && JS.startsWith suggestion originalValue
         && negb (JS.eqb suggestion originalValue)
      then Some suggestion
      else None
  | None => None
  end.

(** [ghostText], as the render pass computes it. *)
Definition ghostText (p : Props) (st : State) : JS.text :=
  match getSuggestion p with
  | Some suggest =>
      if focus p && (cursorOffset st =? JS.length (value p)) then
        match validSuggestion suggest (value p) with
        | Some suggestion => JS.slice_from suggestion (JS.length (value p))
        | None => []
        end
      else []
  | None => []
  end.

(** The text that is displayed: masked when a (truthy) mask is set. *)
Definition displayedValue (p : Props) : JS.text :=
  match mask p with
  | Some m => if JS.truthy m then JS.repeat m (JS.length (value p)) else value p
  | None => value p
  end.

Definition languageSet (p : Props) : bool :=
  match language p with
  | Some l => JS.truthy l
  | None => false
  end.

(** The ghost text that reaches the rendered output, in either render mode
    (the empty text when none is rendered). *)
Definition renderedGhost (p : Props) (st : State) : JS.text :=
  let ghost := ghostText p st in
  let shown := displayedValue p in
  if languageSet p then
    if JS.length shown =? 0 then []
    else if JS.truthy ghost && focus p && (cursorOffset st =? JS.length shown)
         then ghost else []
  else
    if JS.truthy (placeholder p) && negb (JS.length shown >? 0) then []
    else ghost.

(** The part of the [useInput] handler that follows the ignored keys and
    [return]: the next cursor, value and paste width, and the acceptance
    call if any, before the final adjustments of the cursor. *)
Definition edit (p : Props) (st : State) (input : JS.text) (key : Key)
  : Z * JS.text * Z * list Call :=
  let cursorOffset := cursorOffset st in
  let originalValue := value p in
  if leftArrow key then
    ((if showCursor p then cursorOffset - 1 else cursorOffset),
     originalValue, 0, [])
  else if rightArrow key then
    if showCursor p then
      match
        (if cursorOffset =? JS.length originalValue then getSuggestion p
         else None)
      with
      | Some suggest =>
          match validSuggestion suggest originalValue with
          | Some suggestion =>
              (JS.length suggestion, suggestion, 0,
               if onSuggestionAccept p then [OnSuggestionAccept suggestion]
               else [])
          | None => (cursorOffset + 1, originalValue, 0, [])
          end
      | None => (cursorOffset + 1, originalValue, 0, [])
      end
    else (cursorOffset, originalValue, 0, [])
  else if backspace key || delete key then
    if cursorOffset >? 0 then
      (cursorOffset - 1,
       JS.slice originalValue 0 (cursorOffset - 1)
         ++ JS.slice originalValue cursorOffset (JS.length originalValue),
       0, [])
    else (cursorOffset, originalValue, 0, [])
  else
    (cursorOffset + JS.length input,
     JS.slice originalValue 0 cursorOffset
       ++ input
       ++ JS.slice originalValue cursorOffset (JS.length originalValue),
     (if JS.length input >? 1 then JS.length input else 0),
     []).

(** The [useInput] handler: the calls it makes, in order. *)
Definition handleInput (p : Props) (st : State) (input : JS.text) (key : Key)
  : list Call :=
  if upArrow key || downArrow key
     || (ctrl key && JS.eqb input (JS.str "c"))
     || tab key || (shift key && tab key)
  then []
  else if return_ key then
    if onSubmit p then [OnSubmit (value p)] else []
  else
    let '(nextCursorOffset, nextValue, nextCursorWidth, accepted) :=
      edit p st input key in
    let nextCursorOffset :=
      if cursorOffset st <? 0 then 0 else nextCursorOffset in
    let nextCursorOffset :=
      if cursorOffset st >? JS.length (value p) then JS.length (value p)
      else nextCursorOffset in
    accepted
      ++ [SetState {| cursorOffset := nextCursorOffset;
                      cursorWidth := nextCursorWidth |}]
      ++ (if negb (JS.eqb nextValue (value p)) then [OnChange nextValue]
          else []).

(** [useInput(handler, {isActive: focus})]: an unfocused component receives
    no key. *)
Definition useInput (p : Props) (st : State) (input : JS.text) (key : Key)
  : list Call :=
  if focus p then handleInput p st input key else [].

(** Key events. *)
Definition noKey : Key :=
  {| upArrow := false; downArrow := false; leftArrow := false;
     rightArrow := false; return_ := false; ctrl := false; shift := false;
     tab := false; backspace := false; delete := false |}.

Definition keyLeft : Key :=
  {| upArrow := false; downArrow := false; leftArrow := true;
     rightArrow := false; return_ := false; ctrl := false; shift := false;
     tab := false; backspace := false; delete := false |}.

Definition keyRight : Key :=
  {| upArrow := false; downArrow := false; leftArrow := false;
     rightArrow := true; return_ := false; ctrl := false; shift := false;
     tab := false; backspace := false; delete := false |}.

Definition keyBackspace : Key :=
  {| upArrow := false; downArrow := false; leftArrow := false;
     rightArrow := false; return_ := false; ctrl := false; shift := false;
     tab := false; backspace := true; delete := false |}.

Definition keyDelete : Key :=
  {| upArrow := false; downArrow := false; leftArrow := false;
     rightArrow := false; return_ := false; ctrl := false; shift := false;
     tab := false; backspace := false; delete := true |}.

Definition keyReturn : Key :=
  {| upArrow := false; downArrow := false; leftArrow := false;
     rightArrow := false; return_ := true; ctrl := false; shift := false;
     tab := false; backspace := false; delete := false |}.

(** ** The component under a caller that stores the value

    [UncontrolledTextInput] keeps the value in its own state and passes
    [setValue] as [onChange]; the other props are the caller's.  A widget is
    the value it holds together with the state of the [TextInput] inside. *)

Record Widget : Type := { held : JS.text; inner : State }.

Definition withValue (p : Props) (v : JS.text) : Props :=
  {| value := v; placeholder := placeholder p; focus := focus p;
     mask := mask p; highlightPastedText := highlightPastedText p;
     showCursor := showCursor p; onSubmit := onSubmit p;
     language := language p; getSuggestion := getSuggestion p;
     onSuggestionAccept := onSuggestionAccept p;
     decorations := decorations p |}.

(** The effect of one call on the widget. *)
Definition perform (w : Widget) (c : Call) : Widget :=
  match c with
  | SetState s => {| held := held w; inner := s |}
  | OnChange v => {| held := v; inner := inner w |}
  | OnSubmit _ => w
  | OnSuggestionAccept _ => w
  end.

(** One key event: the handler runs on the current value and state, its
    calls are performed, and when the value has changed the effect that
    depends on it runs on the new value. *)
Definition press (p : Props) (w : Widget) (input : JS.text) (key : Key)
  : Widget :=
  let w' :=
    fold_left perform (useInput (withValue p (held w)) (inner w) input key) w
  in
  if JS.eqb (held w') (held w) then w'
  else {| held := held w'; inner := reconcile (withValue p (held w')) (inner w') |}.

Definition pressAll (p : Props) (w : Widget)
  (events : list (JS.text * Key)) : Widget :=
  fold_left (fun w e => press p w (fst e) (snd e)) events w.

(** The props of [<UncontrolledTextInput />] with every default. *)
Definition defaultProps : Props :=
  {| value := []; placeholder := []; focus := true; mask := None;
     highlightPastedText := false; showCursor := true; onSubmit := false;
     language := None; getSuggestion := None; onSuggestionAccept := false;
     decorations := [] |}.

Definition type (s : string) : JS.text * Key := (JS.str s, noKey).

(** ** Notions the properties are stated with *)

(** A point that lies strictly inside the span of a segment. *)
Definition straddles (seg : Segment.t) (p : Z) : Prop :=
  Segment.start seg < p < Segment.end_ seg.

(** A cursor boundary: where the shown cursor begins or ends. *)
Definition cursorBoundary (cursorOffset : Z) (showCursor : bool) (p : Z)
  : Prop :=
  showCursor = true /\ (p = cursorOffset \/ p = cursorOffset + 1).

(** A decoration boundary: an end of a clamped decoration that is not
    empty. *)
Definition decorationBoundary (value : JS.text)
  (decorations : list Decoration.t) (p : Z) : Prop :=
  exists d, In d (clampedDecorations value decorations)
            /\ Decoration.start d < Decoration.end_ d
            /\ (p = Decoration.start d \/ p = Decoration.end_ d).

(** The suggestion that is valid for the current value, if any. *)
Definition currentSuggestion (p : Props) : option JS.text :=
  match getSuggestion p with
  | Some suggest => validSuggestion suggest (value p)
  | None => None
  end.

Definition withShowCursor (p : Props) (b : bool) : Props :=
  {| value := value p; placeholder := placeholder p; focus := focus p;
     mask := mask p; highlightPastedText := highlightPastedText p;
     showCursor := b; onSubmit := onSubmit p;
     language := language p; getSuggestion := getSuggestion p;
     onSuggestionAccept := onSuggestionAccept p;
     decorations := decorations p |}.

(** The provider of the tests: it completes what starts with ["sel"]. *)
Definition suggestSelect (v : JS.text) : option JS.text :=
  if JS.startsWith v (JS.str "sel") then Some (JS.str "select * from users")
  else None.

Definition selectProps (showCursor : bool) : Props :=
  {| value := JS.str "sel"; placeholder := []; focus := true; mask := None;
     highlightPastedText := false; showCursor := showCursor;
     onSubmit := false; language := None;
     getSuggestion := Some suggestSelect; onSuggestionAccept := true;
     decorations := [] |}.

(** Props with the cursor hidden and an empty value: the value after the
    caller has cleared it. *)
Definition clearedHiddenProps : Props := withShowCursor defaultProps false.

(** The widget that holds [s] with the cursor at [n]. *)
Definition widget (s : string) (n : Z) : Widget :=
  {| held := JS.str s; inner := {| cursorOffset := n; cursorWidth := 0 |} |}.

(** ** The render pass

    The styling functions of chalk are taken as they come: [inverse], [grey]
    and [dim] map a text to the text with its escape codes. *)

Record Chalk : Type := {
  inverse : JS.text -> JS.text;
  grey : JS.text -> JS.text;
  dim : JS.text -> JS.text
}.

(** chalk with colors disabled: every style leaves the text as it is. *)
Definition plainChalk : Chalk :=
  {| inverse := fun s => s; grey := fun s => s; dim := fun s => s |}.

(** chalk with colors enabled, on a text without escape codes or line
    breaks: the text between the opening and the closing code of the
    style. *)
Definition escape (code : string) : JS.text :=
  ascii_of_nat 27 :: JS.str "[" ++ JS.str code ++ JS.str "m".

(** A style of chalk: the empty text stays empty. *)
Definition styled (opening closing : string) (s : JS.text) : JS.text :=
  match s with
  | [] => []
  | _ :: _ => escape opening ++ s ++ escape closing
  end.

Definition ansiChalk : Chalk :=
  {| inverse := styled "7" "27";
     grey := styled "90" "39";
     dim := styled "2" "22" |}.

Definition cursorActualWidth (p : Props) (st : State) : Z :=
  if highlightPastedText p then cursorWidth st else 0.

(** One turn of [for (const char of value)]: the rendered value so far and
    the index [i].  The loop of the source steps by code point; in a text of
    this development every code unit is below 256 and is a code point of its
    own, so one turn takes one element, and [i] is also the offset in code
    units.  What is proved of this loop is proved for such values only. *)
Definition renderChar (ck : Chalk) (lo hi : Z) (acc : JS.text * Z)
  (char : ascii) : JS.text * Z :=
  (fst acc
     ++ (if (snd acc >=? lo) && (snd acc <=? hi) then inverse ck [char]
         else [char]),
   snd acc + 1).

(** [renderedValue], once the ghost text is appended. *)
Definition renderedValue (ck : Chalk) (p : Props) (st : State) : JS.text :=
  let value := displayedValue p in
  let rendered :=
    if showCursor p && focus p then
      let start :=
        if JS.length value >? 0 then [] else inverse ck (JS.str " ") in
      let looped :=
        fst (fold_left
               (renderChar ck (cursorOffset st - cursorActualWidth p st)
                  (cursorOffset st))
               value (start, 0)) in
      if (JS.length value >? 0) && (cursorOffset st =? JS.length value)
      then looped ++ inverse ck (JS.str " ")
      else looped
    else value in
  let ghost := ghostText p st in
  if JS.truthy ghost then rendered ++ dim ck ghost else rendered.

(** [renderedPlaceholder]: [None] is [undefined]. *)
Definition renderedPlaceholder (ck : Chalk) (p : Props) : option JS.text :=
  if showCursor p && focus p then
    Some
      (match placeholder p with
       | first :: _ =>
           inverse ck [first] ++ grey ck (JS.slice_from (placeholder p) 1)
       | [] => inverse ck (JS.str " ")
       end)
  else if JS.truthy (placeholder p) then Some (grey ck (placeholder p))
  else None.

Definition displayValue (ck : Chalk) (p : Props) (st : State)
  : option JS.text :=
  if JS.truthy (placeholder p) then
    if JS.length (displayedValue p) >? 0 then Some (renderedValue ck p st)
    else renderedPlaceholder ck p
  else Some (renderedValue ck p st).

(** The key of an element: the prefix of the template and the start of the
    segment ([cursor-3] is [(cursorKey, 3)]). *)
Inductive KeyKind : Type := cursorKey | decKey | segKey.

Definition ReactKey : Type := option (KeyKind * Z).

(** The elements the component puts inside its outer [<Text>]. *)
Inductive Node : Type :=
| TextInverse (key : ReactKey) (children : JS.text)
| TextDim (children : JS.text)
| TextStyled (key : ReactKey) (style : TextProps) (language code : JS.text)
| SyntaxHighlight (key : ReactKey) (language code : JS.text).

(** The element of one segment. *)
Definition segmentNode (language : JS.text) (seg : Segment.t) : Node :=
  if Segment.isCursor seg then
    TextInverse (Some (cursorKey, Segment.start seg)) (Segment.text seg)
  else
    match mergeDecorationStyles (Segment.decorations seg) with
    | Some decorationStyle =>
        TextStyled (Some (decKey, Segment.start seg)) decorationStyle
          language (Segment.text seg)
    | None =>
        SyntaxHighlight (Some (segKey, Segment.start seg)) language
          (Segment.text seg)
    end.

(** What the component renders with a language for a value that is empty,
    in either version of the component.  (Without a placeholder the component
    returns the inverse space, or an empty [<Text>], with no outer [<Text>]
    around it; it is listed here like the other cases.) *)
Definition renderEmpty (p : Props) : list Node :=
  let cursorVisible := showCursor p && focus p in
  if JS.truthy (placeholder p) then
    if cursorVisible then
      [TextInverse None
         (match placeholder p with
          | first :: _ => [first]
          | [] => JS.str " "
          end);
       TextDim (JS.slice_from (placeholder p) 1)]
    else [TextDim (placeholder p)]
  else if cursorVisible then [TextInverse None (JS.str " ")]
  else [].

(** The render with a language set: the children of the outer [<Text>]. *)
Definition renderHighlighted (language : JS.text) (p : Props) (st : State)
  : list Node :=
  let value := displayedValue p in
  let ghost := ghostText p st in
  let showGhost :=
    JS.truthy ghost && focus p && (cursorOffset st =? JS.length value) in
  let cursorVisible := showCursor p && focus p in
  if JS.length value =? 0 then renderEmpty p
  else
    let cursorAtEnd := cursorOffset st =? JS.length value in
    map (segmentNode language)
        (createSegments value (cursorOffset st) (decorations p) cursorVisible)
    ++ (if cursorVisible && cursorAtEnd
        then [TextInverse None (JS.str " ")] else [])
    ++ (if showGhost then [TextDim ghost] else []).

(** The same render in the version of the component without decorations:
    the value is cut in three around the cursor. *)
Definition legacyRenderHighlighted (language : JS.text) (p : Props)
  (st : State) : list Node :=
  let value := displayedValue p in
  let ghost := ghostText p st in
  let showGhost :=
    JS.truthy ghost && focus p && (cursorOffset st =? JS.length value) in
  let cursorVisible := showCursor p && focus p in
  if JS.length value =? 0 then renderEmpty p
  else
    let beforeCursor := JS.slice value 0 (cursorOffset st) in
    let atCursor := JS.charAt value (cursorOffset st) in
    let afterCursor :=
      if JS.truthy atCursor then JS.slice_from value (cursorOffset st + 1)
      else [] in
    let cursorAtEnd := cursorOffset st =? JS.length value in
    (if JS.truthy beforeCursor
     then [SyntaxHighlight None language beforeCursor] else [])
    ++ (if cursorVisible
        then [TextInverse None (if cursorAtEnd then JS.str " " else atCursor)]
        else [])
    ++ (if negb cursorVisible && JS.truthy atCursor
        then [SyntaxHighlight None language atCursor] else [])
    ++ (if JS.truthy afterCursor
        then [SyntaxHighlight None language afterCursor] else [])
    ++ (if showGhost then [TextDim ghost] else []).

(** What [TextInput] returns: one styled string, or the elements of the
    render with a language. *)
Inductive Rendered : Type :=
| PlainText (displayValue : option JS.text)
| Highlighted (children : list Node).

Definition TextInput (ck : Chalk) (p : Props) (st : State) : Rendered :=
  match language p with
  | Some l =>
      if JS.truthy l then Highlighted (renderHighlighted l p st)
      else PlainText (displayValue ck p st)
  | None => PlainText (displayValue ck p st)
  end.

(** The text of an element, and the element without its key. *)
Definition nodeText (n : Node) : JS.text :=
  match n with
  | TextInverse _ t => t
  | TextDim t => t
  | TextStyled _ _ _ t => t
  | SyntaxHighlight _ _ t => t
  end.

Definition nodeKey (n : Node) : ReactKey :=
  match n with
  | TextInverse k _ => k
  | TextDim _ => None
  | TextStyled k _ _ _ => k
  | SyntaxHighlight k _ _ => k
  end.

Definition withoutKey (n : Node) : Node :=
  match n with
  | TextInverse _ t => TextInverse None t
  | TextDim t => TextDim t
  | TextStyled _ st l t => TextStyled None st l t
  | SyntaxHighlight _ l t => SyntaxHighlight None l t
  end.

Definition isInverse (n : Node) : bool :=
  match n with
  | TextInverse _ _ => true
  | _ => false
  end.

(** Each character on its own in inverse video. *)
Definition inverseEach (ck : Chalk) (s : JS.text) : JS.text :=
  List.concat (map (fun ch => inverse ck [ch]) s).

(** ** The demo

    [demo.tsx], in its version without decorations: the list of commands,
    the suggestion provider, the submit handler, and the demo as the caller
    that stores the value of its [TextInput]. *)

Module Demo.

Definition sqlCommands : list JS.text :=
  map JS.str
    ["select * from users"; "select * from orders";
     "select id, name from users"; "insert into users values";
     "update users set"; "delete from users where"; "create table";
     "drop table"; "alter table"]%string.

Definition getSuggestion (input : JS.text) : option JS.text :=
  if JS.length input =? 0 then None
  else
    let lower := JS.toLowerCase input in
    find (fun cmd => JS.startsWith cmd lower && negb (JS.eqb cmd lower))
         sqlCommands.

(** The state of the demo and of the [TextInput] inside. *)
Record t : Type := {
  value : JS.text;
  submitted : list JS.text;
  input : State
}.

Definition handleSubmit (d : t) (val : JS.text) : t :=
  if JS.truthy (JS.trim val) then
    {| value := []; submitted := submitted d ++ [val]; input := input d |}
  else d.

(** The props the demo passes to [TextInput]. *)
Definition props (v : JS.text) : Props :=
  Build_Props
    v                                   (* value *)
    (JS.str "Enter SQL query...")       (* placeholder *)
    true                                (* focus, by default *)
    None                                (* mask *)
    false                               (* highlightPastedText, by default *)
    true                                (* showCursor, by default *)
    true                                (* onSubmit={handleSubmit} *)
    (Some (JS.str "sql"))               (* language *)
    (Some getSuggestion)                (* getSuggestion *)
    true                                (* onSuggestionAccept *)
    [].                                 (* decorations, by default *)

(** The effect of one call of the component on the demo. *)
Definition perform (d : t) (c : Call) : t :=
  match c with
  | SetState s =>
      {| value := value d; submitted := submitted d; input := s |}
  | OnChange v =>
      {| value := v; submitted := submitted d; input := input d |}
  | OnSubmit v => handleSubmit d v
  | OnSuggestionAccept s =>
      {| value := s; submitted := submitted d; input := input d |}
  end.

(** One key event on the demo. *)
Definition press (d : t) (text : JS.text) (key : Key) : t :=
  let d' :=
    fold_left perform (useInput (props (value d)) (input d) text key) d in
  if JS.eqb (value d') (value d) then d'
  else {| value := value d'; submitted := submitted d';
          input := reconcile (props (value d')) (input d') |}.

End Demo.

(** A text that extends another properly: it is the other followed by a
    text that is not empty. *)
Definition properlyExtends (s prefix : JS.text) : Prop :=
  exists rest, rest <> [] /\ s = prefix ++ rest.

(** The keys the handler returns on at once: the vertical arrows, ctrl+c,
    tab and shift+tab. *)
Definition ignoredKey (input : JS.text) (key : Key) : bool :=
  upArrow key || downArrow key
  || (ctrl key && JS.eqb input (JS.str "c"))
  || tab key || (shift key && tab key).

(** The cursor lies inside the value the widget holds. *)
Definition cursorInRange (w : Widget) : Prop :=
  0 <= cursorOffset (inner w) <= JS.length (held w).

(** The cursor is at most one place outside the value the widget holds. *)
Definition cursorNearRange (w : Widget) : Prop :=
  -1 <= cursorOffset (inner w) <= JS.length (held w) + 1.

(** * Properties *)

(** ** Strings *)

Module JSFacts.

Lemma length_nonneg (s : JS.text) : 0 <= JS.length s.
Proof. unfold JS.length. lia. Qed.

Lemma length_app (s t : JS.text) :
  JS.length (s ++ t) = JS.length s + JS.length t.
Proof. unfold JS.length. rewrite List.length_app. lia. Qed.

Lemma length_cons (ch : ascii) (s : JS.text) :
  JS.length (ch :: s) = 1 + JS.length s.
Proof. unfold JS.length. simpl List.length. lia. Qed.

Lemma length_nil_iff (s : JS.text) : JS.length s = 0 <-> s = [].
Proof.
  unfold JS.length. destruct s; simpl; split; intros H;
    try reflexivity; try discriminate; lia.
Qed.

(** Inside the text, [slice] is [firstn] after [skipn]. *)
Lemma slice_in_range (s : JS.text) (a b : Z) :
  0 <= a -> a <= JS.length s -> 0 <= b -> b <= JS.length s ->
  JS.slice s a b = firstn (Z.to_nat (b - a)) (skipn (Z.to_nat a) s).
Proof.
  intros Ha Ha' Hb Hb'. unfold JS.slice, JS.rel_index.
  destruct (Z.ltb_spec a 0); [lia|]. destruct (Z.ltb_spec b 0); [lia|].
  rewrite !Z.min_l by lia. reflexivity.
Qed.

Lemma slice_all (s : JS.text) : JS.slice s 0 (JS.length s) = s.
Proof.
  pose proof (length_nonneg s).
  rewrite slice_in_range by lia. simpl.
  apply firstn_all2. unfold JS.length. lia.
Qed.

Lemma slice_empty (s : JS.text) (a : Z) : JS.slice s a a = [].
Proof. unfold JS.slice. rewrite Z.sub_diag. reflexivity. Qed.

Lemma firstn_skipn_glue {A : Type} (l : list A) (n m k : nat) :
  firstn m (skipn n l) ++ firstn k (skipn (n + m) l)
  = firstn (m + k) (skipn n l).
Proof.
  revert l; induction n as [|n IH]; intros l.
  - simpl. revert l; induction m as [|m IHm]; intros l; simpl.
    + reflexivity.
    + destruct l as [|x l]; simpl.
      * destruct k; reflexivity.
      * f_equal. apply IHm.
  - destruct l as [|x l]; simpl.
    + rewrite !firstn_nil. reflexivity.
    + apply IH.
Qed.

(** Two adjacent slices make one. *)
Lemma slice_glue (s : JS.text) (a b c : Z) :
  0 <= a -> a <= b -> b <= c -> c <= JS.length s ->
  JS.slice s a b ++ JS.slice s b c = JS.slice s a c.
Proof.
  intros Ha Hab Hbc Hc.
  rewrite !slice_in_range by lia.
  replace (Z.to_nat b) with (Z.to_nat a + Z.to_nat (b - a))%nat by lia.
  rewrite firstn_skipn_glue. f_equal. lia.
Qed.

Lemma eqb_eq (a b : JS.text) : JS.eqb a b = true <-> a = b.
Proof.
  revert b; induction a as [|c a IH]; intros [|d b]; simpl;
    try (split; (reflexivity || discriminate)).
  rewrite andb_true_iff, Ascii.eqb_eq, IH.
  split; [intros [-> ->]; reflexivity | intros H; inversion H; auto].
Qed.

Lemma eqb_refl (a : JS.text) : JS.eqb a a = true.
Proof. apply eqb_eq. reflexivity. Qed.

Lemma eqb_neq (a b : JS.text) : JS.eqb a b = false <-> a <> b.
Proof.
  rewrite <- eqb_eq. destruct (JS.eqb a b); split; intros H;
    try reflexivity; try discriminate; congruence.
Qed.

(** [startsWith] holds exactly of the texts that extend the prefix. *)
Lemma startsWith_iff (s p : JS.text) :
  JS.startsWith s p = true <-> exists rest, s = p ++ rest.
Proof.
  revert s; induction p as [|c p IH]; intros s; simpl.
  - split; [intros _; exists s; reflexivity | reflexivity].
  - destruct s as [|d s].
    + split; [discriminate | intros [rest H]; discriminate].
    + rewrite andb_true_iff, Ascii.eqb_eq, IH. split.
      * intros [-> [rest ->]]. exists rest. reflexivity.
      * intros [rest H]. inversion H; subst. split; [reflexivity|].
        exists rest. reflexivity.
Qed.

(** What [slice_from] leaves of an extension is the part that was added. *)
Lemma slice_from_app (p rest : JS.text) :
  JS.slice_from (p ++ rest) (JS.length p) = rest.
Proof.
  unfold JS.slice_from.
  pose proof (length_nonneg p). pose proof (length_nonneg rest).
  rewrite slice_in_range; rewrite ?length_app; try lia.
  unfold JS.length. rewrite Nat2Z.id.
  rewrite skipn_app, skipn_all, Nat.sub_diag. simpl.
  apply firstn_all2. lia.
Qed.

End JSFacts.

(** ** The split points *)

Section SplitPoints.

Variable v : JS.text.
Variable c : Z.
Variable clamped : list Decoration.t.
Variable sc : bool.

Lemma In_Set_add (x y : Z) (s : NumSet) :
  In x (Set_add y s) <-> x = y \/ In x s.
Proof. unfold Set_add. apply set_add_iff. Qed.

Lemma NoDup_Set_add (y : Z) (s : NumSet) : NoDup s -> NoDup (Set_add y s).
Proof. unfold Set_add. apply set_add_nodup. Qed.

Lemma NoDup_addDecorationPoints (s : NumSet) (dec : Decoration.t) :
  NoDup s -> NoDup (addDecorationPoints s dec).
Proof.
  intros H. unfold addDecorationPoints.
  destruct (_ <? _); auto using NoDup_Set_add.
Qed.

Lemma NoDup_fold_points (decs : list Decoration.t) (s : NumSet) :
  NoDup s -> NoDup (fold_left addDecorationPoints decs s).
Proof.
  revert s; induction decs as [|d decs IH]; intros s H; simpl.
  - exact H.
  - apply IH, NoDup_addDecorationPoints, H.
Qed.

(** The members of the set after the decoration loop. *)
Lemma In_fold_points (decs : list Decoration.t) (s : NumSet) (x : Z) :
  In x (fold_left addDecorationPoints decs s) <->
  In x s \/
  exists d, In d decs /\ Decoration.start d < Decoration.end_ d
            /\ (x = Decoration.start d \/ x = Decoration.end_ d).
Proof.
  revert s; induction decs as [|d decs IH]; intros s; simpl.
  - split; [auto | intros [H | [d [[] _]]]; exact H].
  - rewrite IH. unfold addDecorationPoints.
    destruct (Z.ltb_spec (Decoration.start d) (Decoration.end_ d)) as [Hlt|Hge].
    + rewrite !In_Set_add. split.
      * intros [[->|[->|H]]|[d' [Hd' H]]]; eauto 8.
      * intros [H|[d' [[<-|Hd'] [H1 [->| ->]]]]]; eauto 8.
    + split.
      * intros [H|[d' [Hd' H]]]; eauto 8.
      * intros [H|[d' [[<-|Hd'] [H1 H2]]]]; eauto 8; lia.
Qed.

(** The split points are collected without repetition. *)
Lemma NoDup_splitPoints : NoDup (splitPoints v c clamped sc).
Proof.
  unfold splitPoints. apply NoDup_fold_points.
  destruct sc; [destruct (_ <? _)|];
    repeat apply NoDup_Set_add; constructor.
Qed.

(** The split points: the two ends of the text, the cursor and the place
    after it when the cursor is shown, and the two ends of every non-empty
    clamped decoration. *)
Lemma In_splitPoints (x : Z) :
  In x (splitPoints v c clamped sc) <->
  x = 0 \/ x = JS.length v
  \/ (sc = true /\ (x = c \/ (c < JS.length v /\ x = c + 1)))
  \/ exists d, In d clamped /\ Decoration.start d < Decoration.end_ d
               /\ (x = Decoration.start d \/ x = Decoration.end_ d).
Proof.
  unfold splitPoints. rewrite In_fold_points.
  destruct sc.
  - destruct (Z.ltb_spec c (JS.length v)); rewrite !In_Set_add; simpl;
      intuition (try discriminate; try lia; auto).
  - rewrite !In_Set_add; simpl; intuition (try discriminate; auto).
Qed.

(** Sorting distinct numbers leaves them strictly increasing. *)
Lemma StronglySorted_lt_of_NoDup (l : list Z) :
  StronglySorted (fun x y => is_true (ZOrder.leb x y)) l -> NoDup l ->
  StronglySorted Z.lt l.
Proof.
  induction 1 as [|x l Hs IH Hx]; intros Hnd; constructor.
  - apply IH. inversion Hnd; assumption.
  - inversion Hnd as [|? ? Hnotin _]; subst.
    rewrite Forall_forall in *. intros y Hy.
    specialize (Hx y Hy). unfold is_true, ZOrder.leb in Hx.
    apply Z.leb_le in Hx.
    assert (x <> y) by (intros ->; contradiction). lia.
Qed.

Lemma StronglySorted_filter {A : Type} (R : A -> A -> Prop) (f : A -> bool)
  (l : list A) : StronglySorted R l -> StronglySorted R (filter f l).
Proof.
  induction 1 as [|x l Hs IH Hx]; simpl; [constructor|].
  destruct (f x); [constructor|]; auto.
  rewrite Forall_forall in *. intros y Hy.
  apply filter_In in Hy. apply Hx, Hy.
Qed.

Lemma StronglySorted_sort_points :
  StronglySorted Z.lt (ZSort.sort (splitPoints v c clamped sc)).
Proof.
  apply StronglySorted_lt_of_NoDup.
  - apply ZSort.StronglySorted_sort.
    intros x y z. unfold is_true, ZOrder.leb. rewrite !Z.leb_le. lia.
  - eapply Permutation_NoDup; [apply ZSort.Permuted_sort|].
    apply NoDup_splitPoints.
Qed.

(** The points the segment loop walks are strictly increasing. *)
Lemma StronglySorted_points : StronglySorted Z.lt (points v c clamped sc).
Proof. apply StronglySorted_filter, StronglySorted_sort_points. Qed.

(** They are the split points that lie inside the text. *)
Lemma In_points (x : Z) :
  In x (points v c clamped sc) <->
  In x (splitPoints v c clamped sc) /\ 0 <= x <= JS.length v.
Proof.
  unfold points. rewrite filter_In, andb_true_iff, !Z.leb_le.
  split; intros [H1 H2]; split; auto.
  - eapply Permutation_in; [apply Permutation_sym, ZSort.Permuted_sort|].
    exact H1.
  - eapply Permutation_in; [apply ZSort.Permuted_sort|]. exact H1.
Qed.

Lemma points_in_range (x : Z) :
  In x (points v c clamped sc) -> 0 <= x <= JS.length v.
Proof. intros H. apply In_points in H. tauto. Qed.

Lemma zero_in_points : In 0 (points v c clamped sc).
Proof.
  apply In_points. pose proof (JSFacts.length_nonneg v).
  split; [apply In_splitPoints; auto | lia].
Qed.

Lemma length_in_points : In (JS.length v) (points v c clamped sc).
Proof.
  apply In_points. pose proof (JSFacts.length_nonneg v).
  split; [apply In_splitPoints; auto | lia].
Qed.

End SplitPoints.

(** ** The segment loop *)

Section SegmentLoop.

Variable v : JS.text.
Variable c : Z.
Variable clamped : list Decoration.t.
Variable sc : bool.

Lemma segmentsOf_cons2 (a b : Z) (rest : list Z) :
  segmentsOf v c clamped sc (a :: b :: rest)
  = makeSegment v c clamped sc a b :: segmentsOf v c clamped sc (b :: rest).
Proof. reflexivity. Qed.

(** Every segment joins two points, is not empty, and has no point of the
    walk strictly inside. *)
Lemma segmentsOf_spans (pts : list Z) (seg : Segment.t) :
  StronglySorted Z.lt pts -> In seg (segmentsOf v c clamped sc pts) ->
  In (Segment.start seg) pts /\ In (Segment.end_ seg) pts
  /\ Segment.start seg < Segment.end_ seg
  /\ forall p, In p pts -> ~ straddles seg p.
Proof.
  unfold straddles.
  induction pts as [|a pts IH]; intros Hs Hin; [contradiction|].
  destruct pts as [|b rest]; [contradiction|].
  rewrite segmentsOf_cons2 in Hin.
  apply StronglySorted_inv in Hs. destruct Hs as [Hs Ha].
  rewrite Forall_forall in Ha.
  destruct Hin as [<-|Hin]; simpl Segment.start; simpl Segment.end_.
  - assert (a < b) by (apply Ha; left; reflexivity).
    repeat split; [left; reflexivity | right; left; reflexivity | lia |].
    intros p [<-|[<-|Hp]]; [lia | lia |].
    apply StronglySorted_inv in Hs. destruct Hs as [_ Hb].
    rewrite Forall_forall in Hb. specialize (Hb p Hp). lia.
  - destruct (IH Hs Hin) as (H1 & H2 & H3 & H4).
    repeat split; [right; exact H1 | right; exact H2 | exact H3 |].
    intros p [<-|Hp]; [|apply H4, Hp].
    specialize (Ha _ H1). lia.
Qed.

(** What a segment holds is computed from its two ends. *)
Lemma segmentsOf_fields (pts : list Z) (seg : Segment.t) :
  In seg (segmentsOf v c clamped sc pts) ->
  seg = makeSegment v c clamped sc (Segment.start seg) (Segment.end_ seg).
Proof.
  induction pts as [|a pts IH]; intros Hin; [contradiction|].
  destruct pts as [|b rest]; [contradiction|].
  rewrite segmentsOf_cons2 in Hin.
  destruct Hin as [<-|Hin]; [reflexivity | apply IH, Hin].
Qed.

(** Consecutive segments share a point. *)
Lemma segmentsOf_contiguous (pts : list Z) (i : nat) (s1 s2 : Segment.t) :
  nth_error (segmentsOf v c clamped sc pts) i = Some s1 ->
  nth_error (segmentsOf v c clamped sc pts) (S i) = Some s2 ->
  Segment.end_ s1 = Segment.start s2.
Proof.
  revert i; induction pts as [|a pts IH]; intros i H1 H2.
  - destruct i; discriminate.
  - destruct pts as [|b rest]; [destruct i; discriminate|].
    rewrite segmentsOf_cons2 in H1, H2.
    destruct i as [|i].
    + simpl in H1. injection H1 as <-.
      destruct rest as [|d rest]; [discriminate|].
      simpl in H2. injection H2 as <-. reflexivity.
    + apply (IH i); assumption.
Qed.

(** The first segment starts at the first point and the last segment ends
    at the last. *)
Lemma segmentsOf_ends (pts : list Z) (d : Segment.t) :
  segmentsOf v c clamped sc pts <> [] ->
  Segment.start (hd d (segmentsOf v c clamped sc pts)) = hd 0 pts
  /\ Segment.end_ (last (segmentsOf v c clamped sc pts) d) = last pts 0.
Proof.
  induction pts as [|a pts IH]; intros Hne; [contradiction|].
  destruct pts as [|b rest]; [contradiction|].
  rewrite segmentsOf_cons2. split; [reflexivity|].
  destruct rest as [|e rest]; [reflexivity|].
  change (last (a :: b :: e :: rest) 0) with (last (b :: e :: rest) 0).
  destruct IH as [_ IH]; [rewrite segmentsOf_cons2; discriminate|].
  rewrite <- IH. rewrite (segmentsOf_cons2 b e rest). reflexivity.
Qed.

(** The texts of the segments, put together, are the text between the first
    and the last point. *)
Lemma segmentsOf_concat (pts : list Z) :
  StronglySorted Z.lt pts ->
  (forall p, In p pts -> 0 <= p <= JS.length v) ->
  List.concat (map Segment.text (segmentsOf v c clamped sc pts)) = JS.slice v (hd 0 pts) (last pts 0).
Proof.
  induction pts as [|a pts IH]; intros Hs Hr.
  - simpl. symmetry. apply JSFacts.slice_empty.
  - destruct pts as [|b rest].
    + simpl. symmetry. apply JSFacts.slice_empty.
    + rewrite segmentsOf_cons2. cbn [map List.concat makeSegment Segment.text].
      apply StronglySorted_inv in Hs. destruct Hs as [Hs Ha].
      rewrite Forall_forall in Ha.
      rewrite IH; [|exact Hs|intros p Hp; apply Hr; right; exact Hp].
      change (last (a :: b :: rest) 0) with (last (b :: rest) 0).
      simpl hd.
      assert (Hlast : In (last (b :: rest) 0) (b :: rest)).
      { destruct (exists_last (l := b :: rest)) as [l' [x E]];
          [discriminate|].
        rewrite E, last_last. apply in_or_app. right. left. reflexivity. }
      assert (b <= last (b :: rest) 0).
      { destruct Hlast as [E|Hl]; [rewrite <- E at 1; lia|].
        apply StronglySorted_inv in Hs. destruct Hs as [_ Hb].
        rewrite Forall_forall in Hb. specialize (Hb _ Hl). lia. }
      apply JSFacts.slice_glue.
      * apply Hr. left. reflexivity.
      * specialize (Ha b (or_introl eq_refl)). lia.
      * assumption.
      * apply Hr. right. exact Hlast.
Qed.

(** A strictly increasing walk that holds [x] and nothing below it starts
    at [x]; one that holds [x] and nothing above it ends at [x]. *)
Lemma sorted_hd (pts : list Z) (x : Z) :
  StronglySorted Z.lt pts -> In x pts -> (forall p, In p pts -> x <= p) ->
  hd 0 pts = x.
Proof.
  intros Hs Hin Hmin. destruct pts as [|a pts]; [contradiction|]. simpl.
  destruct Hin as [E|Hin]; [exact E|].
  apply StronglySorted_inv in Hs. destruct Hs as [_ Ha].
  rewrite Forall_forall in Ha. specialize (Ha _ Hin).
  specialize (Hmin a (or_introl eq_refl)). lia.
Qed.

Lemma sorted_last (pts : list Z) (x : Z) :
  StronglySorted Z.lt pts -> In x pts -> (forall p, In p pts -> p <= x) ->
  last pts 0 = x.
Proof.
  induction pts as [|a pts IH]; intros Hs Hin Hmax; [contradiction|].
  apply StronglySorted_inv in Hs. destruct Hs as [Hs Ha].
  rewrite Forall_forall in Ha.
  destruct pts as [|b rest].
  - destruct Hin as [E|[]]. exact E.
  - change (last (a :: b :: rest) 0) with (last (b :: rest) 0).
    apply IH; [exact Hs | | intros p Hp; apply Hmax; right; exact Hp].
    destruct Hin as [<-|Hin]; [|exact Hin].
    specialize (Ha b (or_introl eq_refl)).
    specialize (Hmax b (or_intror (or_introl eq_refl))). lia.
Qed.

End SegmentLoop.

(** ** [createSegments] *)

Lemma clampDecoration_in_range (len : Z) (dec : Decoration.t) :
  0 <= len ->
  0 <= Decoration.start (clampDecoration len dec) <= len
  /\ 0 <= Decoration.end_ (clampDecoration len dec) <= len.
Proof. intros H. unfold clampDecoration. simpl. lia. Qed.

(** A decoration that is empty or inverted adds no split point. *)
Lemma addDecorationPoints_dropped (s : NumSet) (dec : Decoration.t) :
  Decoration.start dec >= Decoration.end_ dec ->
  addDecorationPoints s dec = s.
Proof.
  intros H. unfold addDecorationPoints.
  destruct (Z.ltb_spec (Decoration.start dec) (Decoration.end_ dec));
    [lia | reflexivity].
Qed.

Lemma segmentsOf_nil (v : JS.text) (c : Z) (clamped : list Decoration.t)
  (sc : bool) (pts : list Z) :
  segmentsOf v c clamped sc pts = [] -> (List.length pts <= 1)%nat.
Proof.
  destruct pts as [|a [|b rest]]; simpl; intros H; try lia; discriminate.
Qed.

Lemma points_hd (v : JS.text) (c : Z) (clamped : list Decoration.t)
  (sc : bool) : hd 0 (points v c clamped sc) = 0.
Proof.
  apply sorted_hd.
  - apply StronglySorted_points.
  - apply zero_in_points.
  - intros p Hp. apply points_in_range in Hp. lia.
Qed.

Lemma points_last (v : JS.text) (c : Z) (clamped : list Decoration.t)
  (sc : bool) : last (points v c clamped sc) 0 = JS.length v.
Proof.
  apply sorted_last.
  - apply StronglySorted_points.
  - apply length_in_points.
  - intros p Hp. apply points_in_range in Hp. lia.
Qed.

(** The segments of a text that is not empty. *)
Lemma createSegments_nonempty (v : JS.text) (c : Z)
  (decs : list Decoration.t) (sc : bool) :
  v <> [] -> createSegments v c decs sc <> [].
Proof.
  intros Hv Hnil. unfold createSegments in Hnil.
  apply segmentsOf_nil in Hnil.
  pose proof (points_hd v c (clampedDecorations v decs) sc) as Hh.
  pose proof (points_last v c (clampedDecorations v decs) sc) as Hl.
  destruct (points v c (clampedDecorations v decs) sc) as [|a [|b rest]].
  - simpl in Hl. apply Hv, JSFacts.length_nil_iff. lia.
  - simpl in Hh, Hl. apply Hv, JSFacts.length_nil_iff. lia.
  - simpl in Hnil. lia.
Qed.

(** C2, as amended.  For every value, every integer cursor offset, every
    decoration list and both settings of [showCursor], the texts of the
    segments of [createSegments], put together in order, are the value; every
    segment holds the slice of the value over its span, which is not empty
    and lies inside the value; each segment ends where the next one starts,
    the first starts at 0 and the last ends at the length of the value; and
    no segment has strictly inside its span a boundary of the cursor when the
    cursor is shown, or an end of a clamped decoration that is not empty. *)
Theorem createSegments_partition :
  forall (v : JS.text) (c : Z) (decs : list Decoration.t) (sc : bool),
    List.concat (map Segment.text (createSegments v c decs sc)) = v
    /\ (forall seg, In seg (createSegments v c decs sc) ->
          Segment.text seg
          = JS.slice v (Segment.start seg) (Segment.end_ seg)
          /\ 0 <= Segment.start seg
          /\ Segment.start seg < Segment.end_ seg
          /\ Segment.end_ seg <= JS.length v)
    /\ (forall i s1 s2,
          nth_error (createSegments v c decs sc) i = Some s1 ->
          nth_error (createSegments v c decs sc) (S i) = Some s2 ->
          Segment.end_ s1 = Segment.start s2)
    /\ (forall d, createSegments v c decs sc <> [] ->
          Segment.start (hd d (createSegments v c decs sc)) = 0
          /\ Segment.end_ (last (createSegments v c decs sc) d)
             = JS.length v)
    /\ (v <> [] -> createSegments v c decs sc <> [])
    /\ (forall seg p, In seg (createSegments v c decs sc) ->
          cursorBoundary c sc p \/ decorationBoundary v decs p ->
          ~ straddles seg p).
Proof.
  intros v c decs sc.
  pose proof (StronglySorted_points v c (clampedDecorations v decs) sc) as Hs.
  pose proof (points_in_range v c (clampedDecorations v decs) sc) as Hr.
  repeat split.
  - unfold createSegments. rewrite segmentsOf_concat by assumption.
    rewrite points_hd, points_last. apply JSFacts.slice_all.
  - apply segmentsOf_fields in H. rewrite H at 1. reflexivity.
  - apply (segmentsOf_spans _ _ _ _ _ _ Hs) in H.
    destruct H as (H & _). apply Hr in H. lia.
  - apply (segmentsOf_spans _ _ _ _ _ _ Hs) in H. tauto.
  - apply (segmentsOf_spans _ _ _ _ _ _ Hs) in H.
    destruct H as (_ & H & _). apply Hr in H. lia.
  - intros i s1 s2. apply segmentsOf_contiguous.
  - unfold createSegments in *.
    destruct (segmentsOf_ends v c (clampedDecorations v decs) sc _ d H)
      as [E _].
    rewrite E. apply points_hd.
  - unfold createSegments in *.
    destruct (segmentsOf_ends v c (clampedDecorations v decs) sc _ d H)
      as [_ E].
    rewrite E. apply points_last.
  - apply createSegments_nonempty.
  - intros seg p Hin Hb Hstr.
    destruct (segmentsOf_spans _ _ _ _ _ _ Hs Hin) as (Ha & Hb' & _ & Hno).
    apply Hr in Ha. apply Hr in Hb'.
    apply (Hno p); [|exact Hstr].
    unfold straddles in Hstr.
    apply In_points. split; [|lia].
    apply In_splitPoints.
    destruct Hb as [[-> [-> | ->]] | Hd].
    + right; right; left. auto.
    + right; right; left. split; [reflexivity|]. right. split; [lia|auto].
    + right; right; right. exact Hd.
Qed.

(** Witness of [createSegments_partition]: the value ["selct"] with the
    cursor shown on its second character and an error over [0, 3); the
    segment ["l"] over [2, 3) ends at the end of the decoration. *)
Lemma createSegments_partition_witness :
  List.concat
    (map Segment.text
       (createSegments (JS.str "selct") 1 [Decoration.mk 0 3 error] true))
  = JS.str "selct"
  /\ ~ straddles
         (Segment.mk (JS.str "l") 2 3 false [Decoration.mk 0 3 error]) 3
  /\ ~ straddles
         (Segment.mk (JS.str "ct") 3 5 false []) 2.
Proof.
  pose proof (createSegments_partition
                (JS.str "selct") 1 [Decoration.mk 0 3 error] true)
    as (H1 & _ & _ & _ & _ & H6).
  split; [exact H1|]. split.
  - apply H6; [right; right; left; reflexivity|]. right.
    exists (Decoration.mk 0 3 error).
    split; [left; reflexivity|]. simpl. split; [lia|]. right. reflexivity.
  - apply H6; [right; right; right; left; reflexivity|].
    left. split; [reflexivity|]. right. reflexivity.
Defined.

(** C2, as it is stated, fails: with the cursor hidden its offset is no
    split point, and an empty clamped decoration adds none.  On ["abc"] with
    the hidden cursor at 1 and a decoration over [2, 2), the one segment
    [0, 3) has the cursor offset and the decoration's clamped bounds
    strictly inside. *)
Lemma createSegments_straddles_hidden_cursor :
  exists seg,
    In seg (createSegments (JS.str "abc") 1 [Decoration.mk 2 2 error] false)
    /\ straddles seg 1
    /\ exists d,
         In d (clampedDecorations (JS.str "abc") [Decoration.mk 2 2 error])
         /\ straddles seg (Decoration.start d)
         /\ straddles seg (Decoration.end_ d).
Proof.
  exists (Segment.mk (JS.str "abc") 0 3 false [Decoration.mk 2 2 error]).
  split; [left; reflexivity|].
  split; [unfold straddles; simpl; lia|].
  exists (Decoration.mk 2 2 error).
  split; [left; reflexivity|].
  unfold straddles; simpl; lia.
Qed.

(** ** The decorations a segment carries *)

(** C7.  The decorations attached to a segment over [a, b) are exactly the
    clamped decorations with [start < b] and [end > a], in the order of the
    decoration list; a decoration that only touches the segment is not
    attached.  On ["selct"] with an error over [0, 3) (cursor hidden, or
    shown at the end of the value) the segments are ["sel"] over [0, 3) with
    the error decoration, and ["ct"] over [3, 5) with none. *)
Theorem createSegments_decorations :
  (forall (v : JS.text) (c : Z) (decs : list Decoration.t) (sc : bool),
     Forall
       (fun seg =>
          Segment.decorations seg
          = filter
              (fun d =>
                 (Decoration.start d <? Segment.end_ seg)
                 && (Decoration.end_ d >? Segment.start seg))
              (clampedDecorations v decs)
          /\ (forall d,
                In d (Segment.decorations seg) <->
                In d (clampedDecorations v decs)
                /\ Decoration.start d < Segment.end_ seg
                /\ Decoration.end_ d > Segment.start seg)
          /\ (forall d,
                Decoration.end_ d = Segment.start seg
                \/ Decoration.start d = Segment.end_ seg ->
                ~ In d (Segment.decorations seg)))
       (createSegments v c decs sc))
  /\ (forall c : Z,
        createSegments (JS.str "selct") c [Decoration.mk 0 3 error] false
        = [Segment.mk (JS.str "sel") 0 3 false [Decoration.mk 0 3 error];
           Segment.mk (JS.str "ct") 3 5 false []])
  /\ createSegments (JS.str "selct") 5 [Decoration.mk 0 3 error] true
     = [Segment.mk (JS.str "sel") 0 3 false [Decoration.mk 0 3 error];
        Segment.mk (JS.str "ct") 3 5 false []].
Proof.
  split; [|split; [intros c|]; reflexivity].
  intros v c decs sc. apply Forall_forall. intros seg Hin.
  apply segmentsOf_fields in Hin.
  assert (E : Segment.decorations seg
              = filter
                  (fun d =>
                     (Decoration.start d <? Segment.end_ seg)
                     && (Decoration.end_ d >? Segment.start seg))
                  (clampedDecorations v decs)).
  { rewrite Hin at 1. reflexivity. }
  assert (M : forall d,
             In d (Segment.decorations seg) <->
             In d (clampedDecorations v decs)
             /\ Decoration.start d < Segment.end_ seg
             /\ Decoration.end_ d > Segment.start seg).
  { intros d. rewrite E, filter_In, andb_true_iff, Z.ltb_lt, Z.gtb_gt.
    reflexivity. }
  split; [exact E|]. split; [exact M|].
  intros d Htouch Hd. apply M in Hd. lia.
Qed.

(** C3, at an input where the code departs from it.  An inverted decoration
    over (4, 1) and an empty one over [2, 2) add no split point to
    ["abcdef"], yet the one segment [0, 6) carries both, and its merged
    style is theirs. *)
Theorem createSegments_attaches_dropped_decorations :
  createSegments (JS.str "abcdef") 6
    [Decoration.mk 4 1 error; Decoration.mk 2 2 highlight] false
  = [Segment.mk (JS.str "abcdef") 0 6 false
       [Decoration.mk 4 1 error; Decoration.mk 2 2 highlight]]
  /\ mergeDecorationStyles
       [Decoration.mk 4 1 error; Decoration.mk 2 2 highlight]
     = Some [("color", VStr "red"); ("underline", VBool true);
             ("backgroundColor", VStr "yellow")]%string.
Proof. split; reflexivity. Qed.

(** ** Merging styles *)








(** ** The cursor and edit state machine *)

(** A valid suggestion, in the words of the specification. *)
Lemma validSuggestion_iff (suggest : JS.text -> option JS.text)
  (v s : JS.text) :
  validSuggestion suggest v = Some s <->
  suggest v = Some s /\ s <> []
  /\ (exists rest, s = v ++ rest) /\ s <> v.
Proof.
  unfold validSuggestion. destruct (suggest v) as [s'|].
  - destruct (JS.truthy s') eqn:Et; simpl.
    + destruct (JS.startsWith s' v) eqn:Es; simpl.
      * destruct (JS.eqb s' v) eqn:Ee; simpl.
        -- apply JSFacts.eqb_eq in Ee. split; [discriminate|].
           intros ([= ->] & _ & _ & H). contradiction.
        -- apply JSFacts.eqb_neq in Ee. apply JSFacts.startsWith_iff in Es.
           split.
           ++ intros [= ->]. repeat split; auto.
              intros ->. discriminate.
           ++ intros ([= ->] & _). reflexivity.
      * split; [discriminate|]. intros ([= ->] & _ & H & _).
        apply JSFacts.startsWith_iff in H. congruence.
    + split; [discriminate|]. intros ([= ->] & H & _).
      destruct s; [contradiction | discriminate].
  - split; [discriminate | intros [H _]; discriminate].
Qed.

(** A valid suggestion is the value followed by a text that is not empty. *)
Lemma validSuggestion_extends (suggest : JS.text -> option JS.text)
  (v s : JS.text) :
  validSuggestion suggest v = Some s ->
  exists rest, rest <> [] /\ s = v ++ rest.
Proof.
  intros H. apply validSuggestion_iff in H.
  destruct H as (_ & _ & [rest ->] & Hne).
  exists rest. split; [|reflexivity].
  intros ->. apply Hne. apply app_nil_r.
Qed.

(** [MoveRight] with the cursor hidden: nothing but the state update. *)
Lemma handleInput_right_hidden (p : Props) (st : State) (input : JS.text) :
  showCursor p = false ->
  handleInput p st input keyRight
  = [SetState
       {| cursorOffset :=
            if cursorOffset st >? JS.length (value p) then JS.length (value p)
            else if cursorOffset st <? 0 then 0
            else cursorOffset st;
          cursorWidth := 0 |}].
Proof.
  intros Hsc. unfold handleInput, edit. simpl. rewrite Hsc. simpl.
  rewrite JSFacts.eqb_refl. simpl.
  destruct (cursorOffset st >? JS.length (value p));
    destruct (cursorOffset st <? 0); reflexivity.
Qed.

(** [MoveRight] that accepts the suggestion. *)
Lemma handleInput_right_accept (p : Props) (st : State) (input s : JS.text) :
  showCursor p = true ->
  cursorOffset st = JS.length (value p) ->
  currentSuggestion p = Some s ->
  handleInput p st input keyRight
  = (if onSuggestionAccept p then [OnSuggestionAccept s] else [])
      ++ [SetState {| cursorOffset := JS.length s; cursorWidth := 0 |};
          OnChange s].
Proof.
  intros Hsc Hc Hs. unfold currentSuggestion in Hs.
  pose proof (JSFacts.length_nonneg (value p)).
  unfold handleInput, edit. simpl. rewrite Hsc, Hc, Z.eqb_refl.
  destruct (getSuggestion p) as [suggest|]; [|discriminate].
  rewrite Hs.
  apply validSuggestion_iff in Hs. destruct Hs as (_ & _ & _ & Hne).
  apply JSFacts.eqb_neq in Hne. rewrite Hne. simpl.
  destruct (Z.ltb_spec (JS.length (value p)) 0); [lia|].
  rewrite Z.gtb_ltb, Z.ltb_irrefl. reflexivity.
Qed.

(** [MoveRight] that only advances the cursor. *)
Lemma handleInput_right_plain (p : Props) (st : State) (input : JS.text) :
  showCursor p = true ->
  0 <= cursorOffset st <= JS.length (value p) ->
  cursorOffset st <> JS.length (value p) \/ currentSuggestion p = None ->
  handleInput p st input keyRight
  = [SetState {| cursorOffset := cursorOffset st + 1; cursorWidth := 0 |}].
Proof.
  intros Hsc Hc Hs. unfold currentSuggestion in Hs.
  unfold handleInput, edit. simpl. rewrite Hsc.
  destruct (Z.ltb_spec (cursorOffset st) 0); [lia|].
  destruct (Z.gtb_spec (cursorOffset st) (JS.length (value p))); [lia|].
  destruct (Z.eqb_spec (cursorOffset st) (JS.length (value p))) as [E|E].
  - destruct Hs as [Hs|Hs]; [contradiction|].
    destruct (getSuggestion p) as [suggest|].
    + rewrite Hs. simpl. rewrite JSFacts.eqb_refl. reflexivity.
    + simpl. rewrite JSFacts.eqb_refl. reflexivity.
  - simpl. rewrite JSFacts.eqb_refl. reflexivity.
Qed.

(** C5, as amended.  With the cursor shown and at the end of the value, and
    a valid suggestion (the provider's answer is not empty, extends the value
    and differs from it), [MoveRight] accepts it: the acceptance callback, if
    one is supplied, is called once with the suggestion, the cursor is set to
    the length of the suggestion, and the value is replaced by the
    suggestion.  With the cursor shown and inside the value's bounds, and no
    valid suggestion to accept there, [MoveRight] advances the cursor by one
    and notifies nobody.  With the cursor hidden, [MoveRight] makes no call
    but the state update, so it neither accepts nor changes the value, and it
    stores a cursor that is inside the value's bounds as it is.  Under a
    caller that stores the value, the accepting [MoveRight] leaves the
    suggestion as the value and the cursor at its end, and [MoveRight] with
    the cursor hidden leaves the value and a cursor inside its bounds as they
    are. *)
Theorem moveRight_accepts_or_advances :
  forall (p : Props) (st : State) (input : JS.text),
    (forall s,
       showCursor p = true ->
       cursorOffset st = JS.length (value p) ->
       currentSuggestion p = Some s ->
       handleInput p st input keyRight
       = (if onSuggestionAccept p then [OnSuggestionAccept s] else [])
           ++ [SetState {| cursorOffset := JS.length s; cursorWidth := 0 |};
               OnChange s])
    /\ (showCursor p = true ->
        0 <= cursorOffset st <= JS.length (value p) ->
        cursorOffset st <> JS.length (value p)
        \/ currentSuggestion p = None ->
        handleInput p st input keyRight
        = [SetState {| cursorOffset := cursorOffset st + 1;
                       cursorWidth := 0 |}])
    /\ (showCursor p = false ->
        forall call, In call (handleInput p st input keyRight) ->
                     exists s, call = SetState s)
    /\ (showCursor p = false ->
        0 <= cursorOffset st <= JS.length (value p) ->
        handleInput p st input keyRight
        = [SetState {| cursorOffset := cursorOffset st;
                       cursorWidth := 0 |}])
    /\ (forall w,
          showCursor p = false ->
          0 <= cursorOffset (inner w) <= JS.length (held w) ->
          press p w input keyRight
          = if focus p
            then {| held := held w;
                    inner := {| cursorOffset := cursorOffset (inner w);
                                cursorWidth := 0 |} |}
            else w)
    /\ (forall s,
          currentSuggestion p = Some s <->
          exists suggest,
            getSuggestion p = Some suggest
            /\ suggest (value p) = Some s /\ s <> []
            /\ (exists rest, s = value p ++ rest) /\ s <> value p)
    /\ (forall w s,
          focus p = true -> showCursor p = true ->
          cursorOffset (inner w) = JS.length (held w) ->
          currentSuggestion (withValue p (held w)) = Some s ->
          press p w input keyRight
          = {| held := s;
               inner := {| cursorOffset := JS.length s;
                           cursorWidth := 0 |} |}).
Proof.
  intros p st input. split; [|split; [|split; [|split; [|split; [|split]]]]].
  - intros s. apply handleInput_right_accept.
  - apply handleInput_right_plain.
  - intros Hsc call Hin. rewrite handleInput_right_hidden in Hin by exact Hsc.
    destruct Hin as [<-|[]]. eexists. reflexivity.
  - intros Hsc Hr. rewrite handleInput_right_hidden by exact Hsc.
    destruct (Z.gtb_spec (cursorOffset st) (JS.length (value p))); [lia|].
    destruct (Z.ltb_spec (cursorOffset st) 0); [lia|]. reflexivity.
  - intros w Hsc Hr. unfold press, useInput.
    change (focus (withValue p (held w))) with (focus p).
    destruct (focus p).
    + rewrite handleInput_right_hidden by exact Hsc. simpl.
      rewrite JSFacts.eqb_refl.
      destruct (Z.gtb_spec (cursorOffset (inner w)) (JS.length (held w)));
        [lia|].
      destruct (Z.ltb_spec (cursorOffset (inner w)) 0); [lia|]. reflexivity.
    + simpl. rewrite JSFacts.eqb_refl. reflexivity.
  - intros s. unfold currentSuggestion.
    destruct (getSuggestion p) as [suggest|].
    + rewrite validSuggestion_iff. split.
      * intros H. exists suggest. split; [reflexivity | exact H].
      * intros (f & [= <-] & H). exact H.
    + split; [discriminate | intros (f & Hf & _); discriminate].
  - intros w s Hf Hsc Hc Hs. unfold press, useInput.
    change (focus (withValue p (held w))) with (focus p). rewrite Hf.
    rewrite (handleInput_right_accept (withValue p (held w)) (inner w)
               input s Hsc Hc Hs).
    assert (Hne : JS.eqb s (held w) = false).
    { apply JSFacts.eqb_neq. unfold currentSuggestion in Hs.
      destruct (getSuggestion (withValue p (held w))); [|discriminate].
      apply validSuggestion_iff in Hs. tauto. }
    destruct (onSuggestionAccept (withValue p (held w))); simpl;
      rewrite Hne; unfold reconcile; simpl; rewrite Hf, Hsc; simpl;
      (destruct (Z.gtb_spec (JS.length s) (JS.length s - 1)); [|lia]);
      reflexivity.
Qed.

(** Witness of [moveRight_accepts_or_advances]: the right arrow on ["sel"]
    with the cursor at its end accepts ["select * from users"]. *)
Lemma moveRight_accepts_or_advances_witness :
  handleInput (selectProps true) {| cursorOffset := 3; cursorWidth := 0 |}
    [] keyRight
  = [OnSuggestionAccept (JS.str "select * from users");
     SetState {| cursorOffset := 19; cursorWidth := 0 |};
     OnChange (JS.str "select * from users")].
Proof.
  apply (proj1 (moveRight_accepts_or_advances
                  (selectProps true)
                  {| cursorOffset := 3; cursorWidth := 0 |} [])
           (JS.str "select * from users")); reflexivity.
Defined.

(** C5, as it is stated, fails: with the cursor hidden, at the end of
    ["sel"] and with the valid suggestion ["select * from users"], the right
    arrow accepts nothing and leaves the value and the cursor as they are. *)
Lemma moveRight_ignored_when_cursor_hidden :
  cursorOffset {| cursorOffset := 3; cursorWidth := 0 |}
  = JS.length (value (selectProps false))
  /\ currentSuggestion (selectProps false)
     = Some (JS.str "select * from users")
  /\ handleInput (selectProps false)
       {| cursorOffset := 3; cursorWidth := 0 |} [] keyRight
     = [SetState {| cursorOffset := 3; cursorWidth := 0 |}]
  /\ press (selectProps false)
       {| held := JS.str "sel";
          inner := {| cursorOffset := 3; cursorWidth := 0 |} |} [] keyRight
     = {| held := JS.str "sel";
          inner := {| cursorOffset := 3; cursorWidth := 0 |} |}.
Proof. repeat split. Qed.

(** ** Reconciliation with a value changed from outside *)

(** C4, as amended.  When the component has the focus and shows the cursor,
    the reconciliation sets the cursor to the length of the value and the
    paste width to 0 if the recorded cursor offset exceeds that length minus
    one, and leaves the state as it is otherwise.  When the component has no
    focus or hides the cursor, the reconciliation leaves the state as it
    is. *)
Theorem reconcile_resets_past_end :
  forall (p : Props) (st : State),
    (focus p = true -> showCursor p = true ->
     cursorOffset st > JS.length (value p) - 1 ->
     reconcile p st
     = {| cursorOffset := JS.length (value p); cursorWidth := 0 |})
    /\ (focus p = true -> showCursor p = true ->
        cursorOffset st <= JS.length (value p) - 1 ->
        reconcile p st = st)
    /\ (focus p = false \/ showCursor p = false -> reconcile p st = st).
Proof.
  intros p st. unfold reconcile. repeat split.
  - intros -> -> H. simpl.
    destruct (Z.gtb_spec (cursorOffset st) (JS.length (value p) - 1));
      [reflexivity | lia].
  - intros -> -> H. simpl.
    destruct (Z.gtb_spec (cursorOffset st) (JS.length (value p) - 1));
      [lia | reflexivity].
  - intros [-> | ->]; [reflexivity|]. rewrite orb_true_r. reflexivity.
Qed.

(** Witness of [reconcile_resets_past_end]: the value cleared after ["AB"]
    was pasted. *)
Lemma reconcile_resets_past_end_witness :
  reconcile defaultProps {| cursorOffset := 2; cursorWidth := 2 |}
  = {| cursorOffset := 0; cursorWidth := 0 |}.
Proof.
  apply (proj1 (reconcile_resets_past_end defaultProps
                  {| cursorOffset := 2; cursorWidth := 2 |}));
    [reflexivity | reflexivity | vm_compute; reflexivity].
Defined.

(** C4, as it is stated, fails: with the cursor hidden, the value cleared
    after ["AB"] was pasted leaves the cursor at 2, past the end of the empty
    value, and the paste width at 2. *)
Lemma reconcile_skipped_when_cursor_hidden :
  cursorOffset {| cursorOffset := 2; cursorWidth := 2 |}
  > JS.length (value clearedHiddenProps) - 1
  /\ reconcile clearedHiddenProps {| cursorOffset := 2; cursorWidth := 2 |}
     = {| cursorOffset := 2; cursorWidth := 2 |}
  /\ reconcile clearedHiddenProps {| cursorOffset := 2; cursorWidth := 2 |}
     <> {| cursorOffset := JS.length (value clearedHiddenProps);
           cursorWidth := 0 |}.
Proof.
  split; [vm_compute; reflexivity|]. split; [reflexivity|].
  vm_compute. discriminate.
Qed.

(** ** Deleting to the left *)

Lemma slice_before (pre post : JS.text) :
  JS.slice (pre ++ post) 0 (JS.length pre) = pre.
Proof.
  pose proof (JSFacts.length_nonneg pre).
  pose proof (JSFacts.length_nonneg post).
  rewrite JSFacts.slice_in_range; rewrite ?JSFacts.length_app; try lia.
  simpl. rewrite Z.sub_0_r. unfold JS.length. rewrite Nat2Z.id.
  rewrite firstn_app, firstn_all, Nat.sub_diag. simpl. apply app_nil_r.
Qed.

Lemma slice_after (pre post : JS.text) :
  JS.slice (pre ++ post) (JS.length pre) (JS.length (pre ++ post)) = post.
Proof. apply JSFacts.slice_from_app. Qed.

Lemma app_cons_neq (pre post : JS.text) (ch : ascii) :
  pre ++ post <> pre ++ ch :: post.
Proof.
  intros H. apply (f_equal (@List.length ascii)) in H.
  rewrite !List.length_app in H. simpl in H. lia.
Qed.

(** [DeleteLeft] with a character before the cursor. *)
Lemma handleInput_delete_before (p : Props) (st : State) (input : JS.text)
  (key : Key) (pre post : JS.text) (ch : ascii) :
  key = keyBackspace \/ key = keyDelete ->
  value p = pre ++ ch :: post ->
  cursorOffset st = JS.length pre + 1 ->
  handleInput p st input key
  = [SetState {| cursorOffset := JS.length pre; cursorWidth := 0 |};
     OnChange (pre ++ post)].
Proof.
  intros Hk Hv Hc.
  pose proof (JSFacts.length_nonneg pre).
  pose proof (JSFacts.length_nonneg post).
  assert (Hlen : JS.length (value p) = JS.length pre + 1 + JS.length post).
  { rewrite Hv, JSFacts.length_app, JSFacts.length_cons. lia. }
  assert (E1 : JS.slice (value p) 0 (cursorOffset st - 1) = pre).
  { rewrite Hv, Hc. replace (JS.length pre + 1 - 1) with (JS.length pre)
      by lia.
    apply slice_before. }
  assert (E2 : JS.slice (value p) (cursorOffset st) (JS.length (value p))
               = post).
  { rewrite Hc. rewrite Hv at 1 2.
    change (pre ++ ch :: post) with (pre ++ [ch] ++ post).
    rewrite app_assoc.
    replace (JS.length pre + 1) with (JS.length (pre ++ [ch])).
    - apply slice_after.
    - rewrite JSFacts.length_app, JSFacts.length_cons. reflexivity. }
  unfold handleInput, edit.
  destruct Hk as [-> | ->]; simpl; rewrite E1, E2;
    (destruct (Z.gtb_spec (cursorOffset st) 0); [|lia]);
    (destruct (Z.ltb_spec (cursorOffset st) 0); [lia|]);
    (destruct (Z.gtb_spec (cursorOffset st) (JS.length (value p))); [lia|]);
    (replace (JS.eqb (pre ++ post) (value p)) with false
      by (symmetry; apply JSFacts.eqb_neq; rewrite Hv; apply app_cons_neq));
    simpl; repeat f_equal; lia.
Qed.

(** [DeleteLeft] with the cursor at 0. *)
Lemma handleInput_delete_at_start (p : Props) (st : State) (input : JS.text)
  (key : Key) :
  key = keyBackspace \/ key = keyDelete ->
  cursorOffset st = 0 ->
  handleInput p st input key
  = [SetState {| cursorOffset := 0; cursorWidth := 0 |}].
Proof.
  intros Hk Hc. pose proof (JSFacts.length_nonneg (value p)).
  unfold handleInput, edit.
  destruct Hk as [-> | ->]; simpl; rewrite Hc; simpl;
    rewrite JSFacts.eqb_refl; simpl;
    (destruct (Z.gtb_spec 0 (JS.length (value p))); [lia|]);
    reflexivity.
Qed.

(** ** Ghost text *)

(** Typing at the end of the value appends what is typed. *)
Lemma handleInput_type_at_end (p : Props) (st : State) (input : JS.text) :
  cursorOffset st = JS.length (value p) -> input <> [] ->
  handleInput p st input noKey
  = [SetState
       {| cursorOffset := JS.length (value p) + JS.length input;
          cursorWidth :=
            if JS.length input >? 1 then JS.length input else 0 |};
     OnChange (value p ++ input)].
Proof.
  intros Hc Hi. pose proof (JSFacts.length_nonneg (value p)).
  unfold handleInput, edit. simpl. rewrite Hc.
  rewrite JSFacts.slice_all, JSFacts.slice_empty, app_nil_r.
  destruct (Z.ltb_spec (JS.length (value p)) 0); [lia|].
  rewrite Z.gtb_ltb, Z.ltb_irrefl.
  replace (JS.eqb (value p ++ input) (value p)) with false; [reflexivity|].
  symmetry. apply JSFacts.eqb_neq. intros H'.
  rewrite <- (app_nil_r (value p)) in H' at 2.
  apply app_inv_head in H'. contradiction.
Qed.

(** C6.  The ghost text is not empty only when the component has the focus,
    the cursor is at the end of the value and the provider's answer extends
    the value properly (it starts with the value and is longer); the ghost
    text is then the answer without its first [length value] code units, and
    it is what is rendered whenever a ghost text is rendered.  Conversely,
    under these conditions the ghost text is the part of the answer that
    follows the value.  The value is left out of it: with a ghost text
    displayed, return submits the value alone and typing appends to the
    value alone. *)
Theorem ghostText_only_for_proper_extension :
  forall (p : Props) (st : State),
    (ghostText p st <> [] ->
     focus p = true
     /\ cursorOffset st = JS.length (value p)
     /\ exists suggest s,
          getSuggestion p = Some suggest
          /\ suggest (value p) = Some s
          /\ JS.startsWith s (value p) = true
          /\ JS.length s > JS.length (value p)
          /\ s = value p ++ ghostText p st
          /\ ghostText p st = JS.slice_from s (JS.length (value p)))
    /\ (renderedGhost p st <> [] -> renderedGhost p st = ghostText p st)
    /\ (forall suggest rest,
          focus p = true ->
          cursorOffset st = JS.length (value p) ->
          getSuggestion p = Some suggest ->
          suggest (value p) = Some (value p ++ rest) ->
          rest <> [] ->
          ghostText p st = rest)
    /\ (forall input,
          handleInput p st input keyReturn
          = if onSubmit p then [OnSubmit (value p)] else [])
    /\ (forall input,
          ghostText p st <> [] -> input <> [] ->
          handleInput p st input noKey
          = [SetState
               {| cursorOffset := JS.length (value p) + JS.length input;
                  cursorWidth :=
                    if JS.length input >? 1 then JS.length input else 0 |};
             OnChange (value p ++ input)]).
Proof.
  intros p st.
  assert (G : ghostText p st <> [] ->
              focus p = true
              /\ cursorOffset st = JS.length (value p)
              /\ exists suggest s,
                   getSuggestion p = Some suggest
                   /\ validSuggestion suggest (value p) = Some s
                   /\ ghostText p st = JS.slice_from s (JS.length (value p))).
  { unfold ghostText. intros Hg.
    destruct (getSuggestion p) as [suggest|]; [|contradiction].
    destruct (focus p); simpl in *; [|contradiction].
    destruct (Z.eqb_spec (cursorOffset st) (JS.length (value p)));
      [|contradiction].
    destruct (validSuggestion suggest (value p)) as [s|] eqn:Ev;
      [|contradiction].
    repeat split; auto. exists suggest, s. auto. }
  split; [|split; [|split; [|split]]].
  - intros Hg. destruct (G Hg) as (Hf & Hc & suggest & s & Hs & Hv & E).
    split; [exact Hf|]. split; [exact Hc|].
    exists suggest, s.
    destruct (validSuggestion_extends _ _ _ Hv) as (rest & Hrest & ->).
    apply validSuggestion_iff in Hv. destruct Hv as (Hv & _).
    rewrite JSFacts.slice_from_app in E.
    repeat split; auto.
    + apply JSFacts.startsWith_iff. exists rest. reflexivity.
    + rewrite JSFacts.length_app.
      assert (JS.length rest <> 0) by (rewrite JSFacts.length_nil_iff; auto).
      pose proof (JSFacts.length_nonneg rest). lia.
    + rewrite E. reflexivity.
    + rewrite E. symmetry. apply JSFacts.slice_from_app.
  - unfold renderedGhost. intros Hr.
    destruct (languageSet p).
    + destruct (JS.length (displayedValue p) =? 0); [contradiction|].
      destruct (JS.truthy (ghostText p st) && focus p
                && (cursorOffset st =? JS.length (displayedValue p)));
        [reflexivity | contradiction].
    + destruct (JS.truthy (placeholder p)
                && negb (JS.length (displayedValue p) >? 0));
        [contradiction | reflexivity].
  - intros suggest rest Hf Hc Hs Hv Hrest. unfold ghostText.
    rewrite Hs, Hf, Hc, Z.eqb_refl. simpl.
    assert (V : validSuggestion suggest (value p) = Some (value p ++ rest)).
    { apply validSuggestion_iff. repeat split; auto.
      - intros H. apply app_eq_nil in H. destruct H. contradiction.
      - exists rest. reflexivity.
      - intros H. rewrite <- (app_nil_r (value p)) in H at 2.
        apply app_inv_head in H. contradiction. }
    rewrite V. apply JSFacts.slice_from_app.
  - intros input. unfold handleInput. simpl. reflexivity.
  - intros input Hg Hi. destruct (G Hg) as (_ & Hc & _).
    apply handleInput_type_at_end; assumption.
Qed.

(** Witness of [ghostText_only_for_proper_extension]: ["sel"] with the
    suggestion ["select * from users"]. *)
Lemma ghostText_only_for_proper_extension_witness :
  ghostText (selectProps true) {| cursorOffset := 3; cursorWidth := 0 |}
  = JS.str "ect * from users"
  /\ renderedGhost (selectProps true)
       {| cursorOffset := 3; cursorWidth := 0 |}
     = JS.str "ect * from users".
Proof.
  pose proof (ghostText_only_for_proper_extension (selectProps true)
                {| cursorOffset := 3; cursorWidth := 0 |})
    as (_ & H2 & H3 & _).
  assert (E : ghostText (selectProps true)
                {| cursorOffset := 3; cursorWidth := 0 |}
              = JS.str "ect * from users").
  { apply (H3 suggestSelect (JS.str "ect * from users"));
      try reflexivity. discriminate. }
  split; [exact E|].
  rewrite <- E. apply H2. vm_compute. discriminate.
Defined.

(** ** The cursor at the two ends of the value *)

(** C1, at inputs where the code departs from it.  The final adjustment of
    the handler tests the cursor offset it started from, not the one it has
    computed: a left arrow at 0 stores -1, and a right arrow at the end of
    the value stores the length plus one.  The stored offset is then used as
    it is: typed after the left arrow at 0, ["X"] lands before the last
    character of ["ab"]. *)
Theorem cursor_leaves_value_bounds :
  handleInput (withValue defaultProps (JS.str "ab"))
    {| cursorOffset := 0; cursorWidth := 0 |} [] keyLeft
  = [SetState {| cursorOffset := -1; cursorWidth := 0 |}]
  /\ press defaultProps (widget "ab" 0) [] keyLeft = widget "ab" (-1)
  /\ press defaultProps (widget "ab" 2) [] keyRight = widget "ab" 3
  /\ pressAll defaultProps (widget "ab" 0) [([], keyLeft); type "X"]
     = widget "aXb" 0.
Proof. repeat split. Qed.

(** * Further properties of the component *)

(** ** Lengths of slices *)

Lemma rel_index_range (len k : Z) :
  0 <= len -> 0 <= JS.rel_index len k <= len.
Proof.
  intros H. unfold JS.rel_index. destruct (Z.ltb_spec k 0); lia.
Qed.

Lemma length_firstn_skipn (s : JS.text) (a b : Z) :
  0 <= a <= JS.length s -> 0 <= b <= JS.length s ->
  JS.length (firstn (Z.to_nat (b - a)) (skipn (Z.to_nat a) s))
  = Z.max 0 (b - a).
Proof.
  intros Ha Hb. unfold JS.length in *.
  rewrite List.length_firstn, List.length_skipn. lia.
Qed.

(** The length of a slice, whatever the two indices. *)
Lemma length_slice (s : JS.text) (a b : Z) :
  JS.length (JS.slice s a b)
  = Z.max 0 (JS.rel_index (JS.length s) b - JS.rel_index (JS.length s) a).
Proof.
  unfold JS.slice. apply length_firstn_skipn;
    apply rel_index_range, JSFacts.length_nonneg.
Qed.

(** A slice from the start to past the end is the whole text, and a slice
    that starts past the end is empty. *)
Lemma slice_past_end (s : JS.text) (b : Z) :
  JS.length s <= b -> JS.slice s 0 b = s.
Proof.
  intros H. pose proof (JSFacts.length_nonneg s).
  unfold JS.slice, JS.rel_index. simpl.
  destruct (Z.ltb_spec b 0); [lia|].
  rewrite Z.min_r, Z.min_l by lia. simpl. rewrite Z.sub_0_r.
  apply firstn_all2. unfold JS.length. lia.
Qed.

Lemma slice_from_past_end (s : JS.text) (a : Z) :
  JS.length s <= a -> JS.slice s a (JS.length s) = [].
Proof.
  intros H. apply JSFacts.length_nil_iff. rewrite length_slice.
  pose proof (JSFacts.length_nonneg s).
  unfold JS.rel_index.
  destruct (Z.ltb_spec a 0); destruct (Z.ltb_spec (JS.length s) 0); lia.
Qed.

(** ** One key event on the widget *)

(** The cursor the handler stores, from the one it computed. *)
Lemma handleInput_handled (p : Props) (st : State) (input : JS.text)
  (key : Key) :
  ignoredKey input key = false -> return_ key = false ->
  handleInput p st input key
  = snd (edit p st input key)
      ++ [SetState
            {| cursorOffset :=
                 if cursorOffset st >? JS.length (value p)
                 then JS.length (value p)
                 else if cursorOffset st <? 0 then 0
                 else fst (fst (fst (edit p st input key)));
               cursorWidth := snd (fst (edit p st input key)) |}]
      ++ (if negb (JS.eqb (snd (fst (fst (edit p st input key)))) (value p))
          then [OnChange (snd (fst (fst (edit p st input key))))]
          else []).
Proof.
  intros Hi Hr. unfold handleInput. unfold ignoredKey in Hi.
  rewrite Hi, Hr.
  destruct (edit p st input key) as [[[n v'] wd] acc]. simpl.
  destruct (cursorOffset st >? JS.length (value p));
    destruct (cursorOffset st <? 0); reflexivity.
Qed.

(** The acceptance call, when there is one, is the only call [edit] asks
    for. *)
Lemma edit_calls (p : Props) (st : State) (input : JS.text) (key : Key) :
  snd (edit p st input key) = []
  \/ exists s, snd (edit p st input key) = [OnSuggestionAccept s].
Proof.
  unfold edit.
  destruct (leftArrow key); [left; reflexivity|].
  destruct (rightArrow key).
  - destruct (showCursor p); [|left; reflexivity].
    destruct (if cursorOffset st =? JS.length (value p)
              then getSuggestion p else None) as [suggest|];
      [|left; reflexivity].
    destruct (validSuggestion suggest (value p)) as [s|];
      [|left; reflexivity].
    simpl. destruct (onSuggestionAccept p); [right; eauto | left; reflexivity].
  - destruct (backspace key || delete key).
    + destruct (cursorOffset st >? 0); left; reflexivity.
    + left. reflexivity.
Qed.

Lemma fold_perform_accept (w : Widget) (acc : list Call) (rest : list Call) :
  acc = [] \/ (exists s, acc = [OnSuggestionAccept s]) ->
  fold_left perform (acc ++ rest) w = fold_left perform rest w.
Proof. intros [-> | [s ->]]; reflexivity. Qed.

(** A key that the focused component handles: the widget takes the value
    and the cursor the handler computed, and the effect runs if the value has
    changed. *)
Lemma press_handled (p : Props) (w : Widget) (input : JS.text) (key : Key) :
  focus p = true -> ignoredKey input key = false -> return_ key = false ->
  press p w input key
  = (let e := edit (withValue p (held w)) (inner w) input key in
     let s :=
       {| cursorOffset :=
            if cursorOffset (inner w) >? JS.length (held w)
            then JS.length (held w)
            else if cursorOffset (inner w) <? 0 then 0
            else fst (fst (fst e));
          cursorWidth := snd (fst e) |} in
     if JS.eqb (snd (fst (fst e))) (held w)
     then {| held := held w; inner := s |}
     else {| held := snd (fst (fst e));
             inner := reconcile (withValue p (snd (fst (fst e)))) s |}).
Proof.
  intros Hf Hi Hr. unfold press, useInput.
  change (focus (withValue p (held w))) with (focus p). rewrite Hf.
  rewrite handleInput_handled by assumption.
  rewrite fold_perform_accept by apply edit_calls.
  change (value (withValue p (held w))) with (held w).
  cbv zeta.
  destruct (JS.eqb (snd (fst (fst (edit (withValue p (held w)) (inner w)
                                     input key)))) (held w)) eqn:E.
  - simpl. rewrite JSFacts.eqb_refl. reflexivity.
  - simpl. rewrite E. reflexivity.
Qed.

(** A key that the component does not handle leaves the widget as it is. *)
Lemma press_unhandled (p : Props) (w : Widget) (input : JS.text) (key : Key) :
  focus p = false \/ ignoredKey input key = true \/ return_ key = true ->
  press p w input key = w.
Proof.
  intros H. unfold press, useInput, handleInput.
  change (focus (withValue p (held w))) with (focus p).
  destruct (focus p); [|simpl; rewrite JSFacts.eqb_refl; reflexivity].
  fold (ignoredKey input key).
  destruct (ignoredKey input key);
    [simpl; rewrite JSFacts.eqb_refl; reflexivity|].
  destruct (return_ key).
  - destruct (onSubmit (withValue p (held w))); simpl;
      rewrite JSFacts.eqb_refl; reflexivity.
  - destruct H as [H | [H | H]]; discriminate.
Qed.

(** What [edit] computes: a move that keeps the value, an acceptance, a
    deletion or an insertion. *)
Lemma edit_cases (p : Props) (st : State) (input : JS.text) (key : Key) :
  let c := cursorOffset st in
  let v := value p in
  let n := fst (fst (fst (edit p st input key))) in
  let v' := snd (fst (fst (edit p st input key))) in
  (v' = v /\ n = c)
  \/ (v' = v /\ showCursor p = true /\ leftArrow key = true /\ n = c - 1)
  \/ (v' = v /\ showCursor p = true /\ leftArrow key = false
      /\ rightArrow key = true /\ n = c + 1
      /\ (c <> JS.length v \/ currentSuggestion p = None))
  \/ (showCursor p = true /\ leftArrow key = false /\ rightArrow key = true
      /\ c = JS.length v /\ currentSuggestion p = Some v'
      /\ n = JS.length v')
  \/ (leftArrow key = false /\ rightArrow key = false
      /\ (backspace key || delete key) = true
      /\ c > 0 /\ n = c - 1
      /\ v' = JS.slice v 0 (c - 1) ++ JS.slice v c (JS.length v))
  \/ (leftArrow key = false /\ rightArrow key = false
      /\ (backspace key || delete key) = false
      /\ n = c + JS.length input
      /\ v' = JS.slice v 0 c ++ input ++ JS.slice v c (JS.length v)).
Proof.
  cbv zeta. unfold edit, currentSuggestion.
  destruct (leftArrow key).
  { destruct (showCursor p); simpl; [right; left | left]; auto. }
  destruct (rightArrow key).
  { destruct (showCursor p); [|left; auto].
    destruct (Z.eqb_spec (cursorOffset st) (JS.length (value p))) as [E|E].
    - destruct (getSuggestion p) as [suggest|].
      + destruct (validSuggestion suggest (value p)) as [s|] eqn:Ev; simpl.
        * right; right; right; left. auto 10.
        * right; right; left. auto 10.
      + simpl. right; right; left. auto 10.
    - simpl. right; right; left. auto 10. }
  destruct (backspace key || delete key).
  { destruct (Z.gtb_spec (cursorOffset st) 0); simpl.
    - right; right; right; right; left. repeat split; auto. lia.
    - left. auto. }
  simpl. right; right; right; right; right. auto 10.
Qed.

Lemma length_after_delete (v : JS.text) (c : Z) :
  c > 0 ->
  JS.length (JS.slice v 0 (c - 1) ++ JS.slice v c (JS.length v))
  = if c >? JS.length v then JS.length v else JS.length v - 1.
Proof.
  intros Hc. pose proof (JSFacts.length_nonneg v).
  rewrite JSFacts.length_app, !length_slice. unfold JS.rel_index.
  destruct (Z.ltb_spec 0 0); [lia|].
  destruct (Z.ltb_spec (c - 1) 0); [lia|].
  destruct (Z.ltb_spec c 0); [lia|].
  destruct (Z.ltb_spec (JS.length v) 0); [lia|].
  destruct (Z.gtb_spec c (JS.length v)); lia.
Qed.

Lemma length_after_insert (v input : JS.text) (c : Z) :
  JS.length (JS.slice v 0 c ++ input ++ JS.slice v c (JS.length v))
  = JS.length v + JS.length input.
Proof.
  pose proof (JSFacts.length_nonneg v).
  rewrite !JSFacts.length_app, !length_slice. unfold JS.rel_index.
  destruct (Z.ltb_spec 0 0); [lia|].
  destruct (Z.ltb_spec c 0);
    destruct (Z.ltb_spec (JS.length v) 0); lia.
Qed.

(** The cursor the effect leaves is the one it found or the end of the
    value. *)
Lemma reconcile_cursor (p : Props) (st : State) :
  cursorOffset (reconcile p st) = cursorOffset st
  \/ cursorOffset (reconcile p st) = JS.length (value p).
Proof.
  unfold reconcile.
  destruct (negb (focus p) || negb (showCursor p)); [left; reflexivity|].
  destruct (cursorOffset st >? JS.length (value p) - 1);
    [right | left]; reflexivity.
Qed.

(** Where the cursor is after a key that the focused component handles. *)
Lemma press_handled_bounds (p : Props) (w : Widget) (input : JS.text)
  (key : Key) :
  focus p = true -> ignoredKey input key = false -> return_ key = false ->
  let w' := press p w input key in
  cursorNearRange w'
  /\ (~ cursorInRange w -> cursorInRange w')
  /\ (cursorInRange w ->
      showCursor p = false
      \/ (leftArrow key = false /\ rightArrow key = false) ->
      cursorInRange w').
Proof.
  intros Hf Hi Hr. cbv zeta. rewrite press_handled by assumption. cbv zeta.
  pose proof (edit_cases (withValue p (held w)) (inner w) input key) as H.
  cbv zeta in H.
  change (value (withValue p (held w))) with (held w) in H.
  change (showCursor (withValue p (held w))) with (showCursor p) in H.
  set (e := edit (withValue p (held w)) (inner w) input key) in *.
  pose proof (JSFacts.length_nonneg (held w)) as Hlen.
  pose proof (JSFacts.length_nonneg input) as Hinp.
  pose proof (JSFacts.length_nonneg (snd (fst (fst e)))) as Hlen'.
  pose proof (length_after_insert (held w) input (cursorOffset (inner w)))
    as Lins.
  assert (Ldel : cursorOffset (inner w) > 0 ->
                 JS.length
                   (JS.slice (held w) 0 (cursorOffset (inner w) - 1)
                    ++ JS.slice (held w) (cursorOffset (inner w))
                         (JS.length (held w)))
                 = if cursorOffset (inner w) >? JS.length (held w)
                   then JS.length (held w) else JS.length (held w) - 1)
    by apply length_after_delete.
  unfold cursorNearRange, cursorInRange.
  destruct (JS.eqb (snd (fst (fst e))) (held w)) eqn:E; simpl.
  - apply JSFacts.eqb_eq in E.
    destruct (Z.gtb_spec (cursorOffset (inner w)) (JS.length (held w)));
      [lia|].
    destruct (Z.ltb_spec (cursorOffset (inner w)) 0); [lia|].
    destruct H as [H|[H|[H|[H|[H|H]]]]].
    + lia.
    + intuition (try lia; congruence).
    + intuition (try lia; congruence).
    + destruct H as (_ & _ & _ & _ & Hs & _). exfalso.
      unfold currentSuggestion in Hs.
      change (getSuggestion (withValue p (held w))) with (getSuggestion p)
        in Hs.
      change (value (withValue p (held w))) with (held w) in Hs.
      destruct (getSuggestion p); [|discriminate].
      apply validSuggestion_iff in Hs. tauto.
    + destruct H as (_ & _ & _ & Hc & Hn & Hv). rewrite Hv in E.
      specialize (Ldel Hc). rewrite E in Ldel.
      destruct (Z.gtb_spec (cursorOffset (inner w)) (JS.length (held w)));
        lia.
    + destruct H as (_ & _ & _ & Hn & Hv). rewrite Hv in E.
      rewrite E in Lins. lia.
  - set (s := {| cursorOffset := _; cursorWidth := _ |}).
    destruct (reconcile_cursor (withValue p (snd (fst (fst e)))) s)
      as [R|R]; rewrite R; [|simpl; lia].
    unfold s. simpl.
    destruct H as [H|[H|[H|[H|[H|H]]]]].
    + destruct H as [H _]. rewrite H, JSFacts.eqb_refl in E. discriminate.
    + destruct H as [H _]. rewrite H, JSFacts.eqb_refl in E. discriminate.
    + destruct H as [H _]. rewrite H, JSFacts.eqb_refl in E. discriminate.
    + destruct H as (_ & _ & _ & Hc & _ & Hn).
      destruct (Z.gtb_spec (cursorOffset (inner w)) (JS.length (held w)));
        [lia|].
      destruct (Z.ltb_spec (cursorOffset (inner w)) 0); lia.
    + destruct H as (_ & _ & _ & Hc & Hn & Hv).
      specialize (Ldel Hc). rewrite <- Hv in Ldel.
      destruct (Z.gtb_spec (cursorOffset (inner w)) (JS.length (held w)));
        destruct (Z.ltb_spec (cursorOffset (inner w)) 0); lia.
    + destruct H as (_ & _ & _ & Hn & Hv). rewrite <- Hv in Lins.
      destruct (Z.gtb_spec (cursorOffset (inner w)) (JS.length (held w)));
        destruct (Z.ltb_spec (cursorOffset (inner w)) 0); lia.
Qed.

(** ** Invariants of the cursor *)

(** Bounds of a cursor on a given widget, by evaluation. *)
Ltac range_by_evaluation :=
  unfold cursorInRange, cursorNearRange; vm_compute;
  repeat split; discriminate.

(** X1.  Whatever the props and the key, a cursor that is at most one place
    outside the value (from -1 to the length plus one) is still so after the
    key: the handler never sends the cursor further out. *)
Theorem press_keeps_cursor_near :
  forall (p : Props) (w : Widget) (input : JS.text) (key : Key),
    cursorNearRange w -> cursorNearRange (press p w input key).
Proof.
  intros p w input key Hw.
  destruct (focus p) eqn:Hf;
    [|rewrite press_unhandled by auto; exact Hw].
  destruct (ignoredKey input key) eqn:Hi;
    [rewrite press_unhandled by auto; exact Hw|].
  destruct (return_ key) eqn:Hr;
    [rewrite press_unhandled by auto; exact Hw|].
  apply (press_handled_bounds p w input key Hf Hi Hr).
Qed.

Lemma press_keeps_cursor_near_witness :
  cursorNearRange (press defaultProps (widget "ab" 2) [] keyRight).
Proof.
  apply press_keeps_cursor_near. range_by_evaluation.
Defined.

(** X2.  A cursor that is outside the value, on either side and however
    far, is inside it after any key that the focused component handles (any
    key but the vertical arrows, ctrl+c, tab and return). *)
Theorem press_repairs_cursor :
  forall (p : Props) (w : Widget) (input : JS.text) (key : Key),
    focus p = true -> ignoredKey input key = false -> return_ key = false ->
    ~ cursorInRange w ->
    cursorInRange (press p w input key).
Proof.
  intros p w input key Hf Hi Hr.
  apply (press_handled_bounds p w input key Hf Hi Hr).
Qed.

Lemma press_repairs_cursor_witness :
  cursorInRange (press defaultProps (widget "ab" 7) (JS.str "X") noKey).
Proof.
  apply press_repairs_cursor; try reflexivity.
  unfold cursorInRange. vm_compute. intros [_ H]. apply H. reflexivity.
Defined.

(** X3.  A cursor inside the value stays inside it under every key when the
    cursor is hidden, and under every key that is not a horizontal arrow
    when it is shown: only the left and right arrows take the cursor out of
    the value. *)
Theorem press_keeps_cursor_in_range :
  forall (p : Props) (w : Widget) (input : JS.text) (key : Key),
    cursorInRange w ->
    showCursor p = false
    \/ (leftArrow key = false /\ rightArrow key = false) ->
    cursorInRange (press p w input key).
Proof.
  intros p w input key Hw Hk.
  destruct (focus p) eqn:Hf;
    [|rewrite press_unhandled by auto; exact Hw].
  destruct (ignoredKey input key) eqn:Hi;
    [rewrite press_unhandled by auto; exact Hw|].
  destruct (return_ key) eqn:Hr;
    [rewrite press_unhandled by auto; exact Hw|].
  apply (press_handled_bounds p w input key Hf Hi Hr); assumption.
Qed.

Lemma press_keeps_cursor_in_range_witness :
  cursorInRange (press defaultProps (widget "ab" 0) [] keyBackspace).
Proof.
  apply press_keeps_cursor_in_range.
  - range_by_evaluation.
  - right. split; reflexivity.
Defined.

(** ** What the handler calls *)

(** When [edit] asks for the acceptance call, it is with the valid
    suggestion, which becomes the value and holds the cursor at its end. *)
Lemma edit_accept (p : Props) (st : State) (input : JS.text) (key : Key)
  (s : JS.text) :
  snd (edit p st input key) = [OnSuggestionAccept s] ->
  currentSuggestion p = Some s
  /\ cursorOffset st = JS.length (value p)
  /\ edit p st input key
     = (JS.length s, s, 0, [OnSuggestionAccept s]).
Proof.
  unfold edit, currentSuggestion.
  destruct (leftArrow key); [discriminate|].
  destruct (rightArrow key).
  - destruct (showCursor p); [|discriminate].
    destruct (Z.eqb_spec (cursorOffset st) (JS.length (value p))) as [E|E];
      [|discriminate].
    destruct (getSuggestion p) as [suggest|]; [|discriminate].
    destruct (validSuggestion suggest (value p)) as [s'|]; [|discriminate].
    simpl. destruct (onSuggestionAccept p); [|discriminate].
    intros [= ->]. auto.
  - destruct (backspace key || delete key);
      [destruct (cursorOffset st >? 0)|]; discriminate.
Qed.

Lemma currentSuggestion_differs (p : Props) (s : JS.text) :
  currentSuggestion p = Some s -> s <> value p.
Proof.
  unfold currentSuggestion. destruct (getSuggestion p); [|discriminate].
  intros H. apply validSuggestion_iff in H. tauto.
Qed.

(** X4.  For every key the handler makes one of five sequences of calls:
    none; [onSubmit] with the value; [setState] alone; [setState] then
    [onChange] with a value that differs from the current one; or
    [onSuggestionAccept], [setState] and [onChange], all three with the valid
    suggestion.  So no callback is called twice for one key, [onChange] is
    never called with the value the component already has, and a suggestion
    is never accepted without the value changing to it. *)
Theorem handleInput_calls :
  forall (p : Props) (st : State) (input : JS.text) (key : Key),
    handleInput p st input key = []
    \/ (return_ key = true /\ onSubmit p = true
        /\ handleInput p st input key = [OnSubmit (value p)])
    \/ (exists s, handleInput p st input key = [SetState s])
    \/ (exists s v',
          v' <> value p
          /\ handleInput p st input key = [SetState s; OnChange v'])
    \/ (exists s v',
          currentSuggestion p = Some v' /\ v' <> value p
          /\ cursorOffset s = JS.length v'
          /\ handleInput p st input key
             = [OnSuggestionAccept v'; SetState s; OnChange v']).
Proof.
  intros p st input key.
  destruct (ignoredKey input key) eqn:Hi.
  { left. unfold handleInput. fold (ignoredKey input key). rewrite Hi.
    reflexivity. }
  destruct (return_ key) eqn:Hr.
  { unfold handleInput. fold (ignoredKey input key). rewrite Hi, Hr.
    destruct (onSubmit p); [right; left; auto | left; reflexivity]. }
  rewrite handleInput_handled by assumption.
  destruct (edit_calls p st input key) as [Hc|[s Hc]].
  - rewrite Hc. simpl.
    destruct (JS.eqb (snd (fst (fst (edit p st input key)))) (value p))
      eqn:E; simpl.
    + right; right; left. eexists. reflexivity.
    + right; right; right; left. eexists; eexists.
      split; [apply JSFacts.eqb_neq; exact E | reflexivity].
  - destruct (edit_accept _ _ _ _ _ Hc) as (Hs & Hcur & He).
    pose proof (currentSuggestion_differs _ _ Hs) as Hne.
    pose proof (JSFacts.length_nonneg (value p)).
    right; right; right; right. rewrite He. simpl.
    apply JSFacts.eqb_neq in Hne. rewrite Hne. simpl.
    apply JSFacts.eqb_neq in Hne.
    eexists; eexists. split; [exact Hs|]. split; [exact Hne|].
    split; [|reflexivity]. simpl.
    destruct (Z.gtb_spec (cursorOffset st) (JS.length (value p))); [lia|].
    destruct (Z.ltb_spec (cursorOffset st) 0); [lia|]. reflexivity.
Qed.

(** ** Inserting and deleting *)

(** A key with no flag set but, possibly, [ctrl] or [shift]: a key that
    carries text which is not ctrl+c. *)
Lemma edit_insert (p : Props) (st : State) (input : JS.text)
  (pre post : JS.text) :
  value p = pre ++ post -> cursorOffset st = JS.length pre ->
  edit p st input noKey
  = (JS.length pre + JS.length input, pre ++ input ++ post,
     (if JS.length input >? 1 then JS.length input else 0), []).
Proof.
  intros Hv Hc. unfold edit. simpl. rewrite Hc, Hv.
  rewrite slice_before, slice_after. reflexivity.
Qed.

Lemma app_insert_neq (pre input post : JS.text) :
  input <> [] -> pre ++ input ++ post <> pre ++ post.
Proof.
  intros Hi H. apply app_inv_head in H.
  apply (f_equal (@List.length ascii)) in H.
  rewrite List.length_app in H. destruct input; [contradiction|].
  simpl in H. lia.
Qed.

(** Text typed or pasted at the cursor: where the value, the cursor and the
    paste width end up. *)
Lemma press_insert (p : Props) (w : Widget) (input pre post : JS.text) :
  focus p = true -> input <> [] ->
  held w = pre ++ post -> cursorOffset (inner w) = JS.length pre ->
  press p w input noKey
  = {| held := pre ++ input ++ post;
       inner :=
         {| cursorOffset := JS.length pre + JS.length input;
            cursorWidth :=
              if showCursor p && (JS.length post =? 0) then 0
              else if JS.length input >? 1 then JS.length input else 0 |} |}.
Proof.
  intros Hf Hi Hv Hc.
  pose proof (JSFacts.length_nonneg pre).
  pose proof (JSFacts.length_nonneg post).
  pose proof (JSFacts.length_nonneg input).
  rewrite press_handled by (try reflexivity; exact Hf). cbv zeta.
  rewrite (edit_insert (withValue p (held w)) (inner w) input pre post Hv Hc).
  simpl fst. simpl snd.
  replace (JS.eqb (pre ++ input ++ post) (held w)) with false
    by (symmetry; apply JSFacts.eqb_neq; rewrite Hv;
        apply app_insert_neq, Hi).
  f_equal.
  assert (Hlen : JS.length (held w) = JS.length pre + JS.length post)
    by (rewrite Hv; apply JSFacts.length_app).
  destruct (Z.gtb_spec (cursorOffset (inner w)) (JS.length (held w)));
    [lia|].
  destruct (Z.ltb_spec (cursorOffset (inner w)) 0); [lia|].
  unfold reconcile. simpl. rewrite Hf. simpl.
  rewrite !JSFacts.length_app.
  destruct (showCursor p); simpl; [|reflexivity].
  destruct (Z.eqb_spec (JS.length post) 0) as [E|E].
  - destruct (Z.gtb_spec (JS.length pre + JS.length input)
                (JS.length pre + (JS.length input + JS.length post) - 1));
      [|lia].
    f_equal. lia.
  - destruct (Z.gtb_spec (JS.length pre + JS.length input)
                (JS.length pre + (JS.length input + JS.length post) - 1));
      [lia|].
    reflexivity.
Qed.

(** Backspace or delete with a character before the cursor. *)
Lemma press_delete (p : Props) (w : Widget) (input pre post : JS.text)
  (ch : ascii) (key : Key) :
  focus p = true -> key = keyBackspace \/ key = keyDelete ->
  held w = pre ++ ch :: post -> cursorOffset (inner w) = JS.length pre + 1 ->
  press p w input key
  = {| held := pre ++ post;
       inner := {| cursorOffset := JS.length pre; cursorWidth := 0 |} |}.
Proof.
  intros Hf Hk Hv Hc.
  pose proof (JSFacts.length_nonneg pre).
  pose proof (JSFacts.length_nonneg post).
  unfold press, useInput.
  change (focus (withValue p (held w))) with (focus p). rewrite Hf.
  rewrite (handleInput_delete_before (withValue p (held w)) (inner w) input
             key pre post ch Hk Hv Hc).
  simpl.
  replace (JS.eqb (pre ++ post) (held w)) with false
    by (symmetry; apply JSFacts.eqb_neq; rewrite Hv; apply app_cons_neq).
  f_equal. unfold reconcile. simpl. rewrite Hf. simpl.
  destruct (showCursor p); simpl; [|reflexivity].
  rewrite JSFacts.length_app.
  destruct (Z.gtb_spec (JS.length pre) (JS.length pre + JS.length post - 1));
    [|reflexivity].
  f_equal. lia.
Qed.

(** X5.  Text typed or pasted at a cursor inside the value goes in at the
    cursor and the cursor moves past it.  The paste width is the length of
    the text when more than one character is inserted before the end of the
    value; it is 0 for a single character, and also for text pasted at the
    end of the value while the cursor is shown, where the effect that follows
    the change of value resets it. *)
Theorem press_inserts_at_cursor :
  forall (p : Props) (w : Widget) (input pre post : JS.text),
    focus p = true -> input <> [] ->
    held w = pre ++ post -> cursorOffset (inner w) = JS.length pre ->
    press p w input noKey
    = {| held := pre ++ input ++ post;
         inner :=
           {| cursorOffset := JS.length pre + JS.length input;
              cursorWidth :=
                if showCursor p && (JS.length post =? 0) then 0
                else if JS.length input >? 1 then JS.length input
                     else 0 |} |}.
Proof. exact press_insert. Qed.

Lemma press_inserts_at_cursor_witness :
  press defaultProps (widget "AB" 1) (JS.str "Hello World") noKey
  = {| held := JS.str "AHello WorldB";
       inner := {| cursorOffset := 12; cursorWidth := 11 |} |}.
Proof.
  apply (press_inserts_at_cursor defaultProps (widget "AB" 1)
           (JS.str "Hello World") (JS.str "A") (JS.str "B"));
    try reflexivity. discriminate.
Defined.

(** X6.  Typing a character and deleting to the left undo each other: from
    a cursor inside the value, a character typed and then backspace (or
    delete) leave the value and the cursor as they were. *)
Theorem type_then_delete_restores :
  forall (p : Props) (w : Widget) (ch : ascii) (key : Key),
    focus p = true -> cursorInRange w ->
    key = keyBackspace \/ key = keyDelete ->
    press p (press p w [ch] noKey) [] key
    = {| held := held w;
         inner := {| cursorOffset := cursorOffset (inner w);
                     cursorWidth := 0 |} |}.
Proof.
  intros p w ch key Hf [Hlo Hhi] Hk.
  set (c := Z.to_nat (cursorOffset (inner w))).
  assert (Hv : held w = firstn c (held w) ++ skipn c (held w))
    by (symmetry; apply firstn_skipn).
  assert (Hc : cursorOffset (inner w) = JS.length (firstn c (held w))).
  { unfold JS.length in *. rewrite List.length_firstn. lia. }
  rewrite (press_insert p w [ch] _ _ Hf ltac:(discriminate) Hv Hc).
  rewrite (press_delete p _ [] (firstn c (held w)) (skipn c (held w)) ch key
             Hf Hk); [| reflexivity | reflexivity].
  rewrite <- Hv, <- Hc. reflexivity.
Qed.

Lemma type_then_delete_restores_witness :
  press defaultProps (press defaultProps (widget "Test" 2) ["x"%char] noKey)
    [] keyBackspace
  = widget "Test" 2.
Proof.
  apply (type_then_delete_restores defaultProps (widget "Test" 2));
    [reflexivity | range_by_evaluation | left; reflexivity].
Defined.

(** X7.  Characters typed one by one with the cursor at the end of the value
    are appended to the value in order, and the cursor stays at the end. *)
Theorem typing_appends :
  forall (p : Props) (typed : JS.text) (w : Widget),
    focus p = true ->
    cursorOffset (inner w) = JS.length (held w) ->
    held (pressAll p w (map (fun ch => ([ch], noKey)) typed))
    = held w ++ typed
    /\ cursorOffset (inner (pressAll p w (map (fun ch => ([ch], noKey)) typed)))
       = JS.length (held w ++ typed).
Proof.
  intros p typed. induction typed as [|ch typed IH]; intros w Hf Hc.
  - simpl. rewrite app_nil_r. auto.
  - unfold pressAll in *. simpl map. simpl fold_left.
    assert (E : press p w [ch] noKey
                = {| held := held w ++ [ch];
                     inner := {| cursorOffset := JS.length (held w) + 1;
                                 cursorWidth := 0 |} |}).
    { rewrite (press_insert p w [ch] (held w) [] Hf ltac:(discriminate));
        [| symmetry; apply app_nil_r | exact Hc].
      simpl. destruct (showCursor p); reflexivity. }
    rewrite E.
    destruct (IH {| held := held w ++ [ch];
                    inner := {| cursorOffset := JS.length (held w) + 1;
                                cursorWidth := 0 |} |} Hf) as [H1 H2].
    { simpl. rewrite JSFacts.length_app. reflexivity. }
    simpl in H1, H2. rewrite H1, H2, <- app_assoc. auto.
Qed.

Lemma typing_appends_witness :
  held (pressAll defaultProps (widget "Y" 1)
          (map (fun ch => ([ch], noKey)) (JS.str "XZ")))
  = JS.str "YXZ".
Proof.
  apply (typing_appends defaultProps (JS.str "XZ") (widget "Y" 1));
    reflexivity.
Defined.

(** ** Moving the cursor *)

(** The left arrow with the cursor shown and inside the value. *)
Lemma press_left (p : Props) (w : Widget) (input : JS.text) :
  focus p = true -> showCursor p = true -> cursorInRange w ->
  press p w input keyLeft
  = {| held := held w;
       inner := {| cursorOffset := cursorOffset (inner w) - 1;
                   cursorWidth := 0 |} |}.
Proof.
  intros Hf Hs [Hlo Hhi].
  rewrite press_handled by (try reflexivity; exact Hf). cbv zeta.
  unfold edit. simpl. rewrite Hs. simpl. rewrite JSFacts.eqb_refl.
  destruct (Z.gtb_spec (cursorOffset (inner w)) (JS.length (held w)));
    [lia|].
  destruct (Z.ltb_spec (cursorOffset (inner w)) 0); [lia|]. reflexivity.
Qed.

(** The right arrow with the cursor shown and before the end of the
    value. *)
Lemma press_right (p : Props) (w : Widget) (input : JS.text) :
  focus p = true -> showCursor p = true ->
  0 <= cursorOffset (inner w) < JS.length (held w) ->
  press p w input keyRight
  = {| held := held w;
       inner := {| cursorOffset := cursorOffset (inner w) + 1;
                   cursorWidth := 0 |} |}.
Proof.
  intros Hf Hs [Hlo Hhi]. unfold press, useInput.
  change (focus (withValue p (held w))) with (focus p). rewrite Hf.
  rewrite handleInput_right_plain;
    [| exact Hs | simpl; lia | left; simpl; lia].
  simpl. rewrite JSFacts.eqb_refl. reflexivity.
Qed.

(** X8.  With the cursor shown, the two horizontal arrows undo each other
    inside the value: left then right from a cursor after the first place,
    and right then left from a cursor before the end, leave the value and the
    cursor as they were; in particular the right arrow that follows a left
    arrow from the end of the value accepts no suggestion. *)
Theorem arrows_undo_each_other :
  forall (p : Props) (w : Widget) (input : JS.text),
    focus p = true -> showCursor p = true ->
    (0 < cursorOffset (inner w) <= JS.length (held w) ->
     press p (press p w input keyLeft) input keyRight
     = {| held := held w;
          inner := {| cursorOffset := cursorOffset (inner w);
                      cursorWidth := 0 |} |})
    /\ (0 <= cursorOffset (inner w) < JS.length (held w) ->
        press p (press p w input keyRight) input keyLeft
        = {| held := held w;
             inner := {| cursorOffset := cursorOffset (inner w);
                         cursorWidth := 0 |} |}).
Proof.
  intros p w input Hf Hs. split; intros Hc.
  - rewrite (press_left p w input Hf Hs) by (unfold cursorInRange; lia).
    rewrite press_right by (try assumption; simpl; lia).
    simpl. do 2 f_equal. lia.
  - rewrite (press_right p w input Hf Hs Hc).
    rewrite press_left by (try assumption; unfold cursorInRange; simpl; lia).
    simpl. do 2 f_equal. lia.
Qed.

Lemma arrows_undo_each_other_witness :
  press (selectProps true)
    (press (selectProps true) (widget "sel" 3) [] keyLeft) [] keyRight
  = widget "sel" 3.
Proof.
  apply (proj1 (arrows_undo_each_other (selectProps true) (widget "sel" 3) []
                  eq_refl eq_refl)).
  vm_compute. split; [reflexivity | discriminate].
Defined.

(** X9.  A key that the component does not handle changes nothing: with the
    focus elsewhere every key, and with the focus the vertical arrows,
    ctrl+c, tab, shift+tab and return, leave the value, the cursor and the
    paste width as they are; of these only return makes a call, [onSubmit]
    with the value, when the callback is supplied. *)
Theorem unhandled_keys_change_nothing :
  forall (p : Props) (w : Widget) (st : State) (input : JS.text) (key : Key),
    (focus p = false \/ ignoredKey input key = true \/ return_ key = true ->
     press p w input key = w)
    /\ (focus p = false -> useInput p st input key = [])
    /\ (ignoredKey input key = true -> handleInput p st input key = [])
    /\ (ignoredKey input key = false -> return_ key = true ->
        handleInput p st input key
        = if onSubmit p then [OnSubmit (value p)] else []).
Proof.
  intros p w st input key. split; [apply press_unhandled|].
  split; [intros H; unfold useInput; rewrite H; reflexivity|].
  unfold handleInput. fold (ignoredKey input key).
  split; [intros ->; reflexivity | intros -> ->; reflexivity].
Qed.

Lemma unhandled_keys_change_nothing_witness :
  press defaultProps
    {| held := JS.str "AB";
       inner := {| cursorOffset := 1; cursorWidth := 5 |} |} [] keyReturn
  = {| held := JS.str "AB";
       inner := {| cursorOffset := 1; cursorWidth := 5 |} |}.
Proof.
  apply (proj1 (unhandled_keys_change_nothing defaultProps
                  {| held := JS.str "AB";
                     inner := {| cursorOffset := 1; cursorWidth := 5 |} |}
                  {| cursorOffset := 1; cursorWidth := 5 |} [] keyReturn)).
  right; right. reflexivity.
Defined.

(** ** The render without a language *)

Section RenderLoop.

Variable ck : Chalk.
Variables lo hi : Z.

Lemma loop_index (chars : JS.text) (acc : JS.text) (i : Z) :
  snd (fold_left (renderChar ck lo hi) chars (acc, i)) = i + JS.length chars.
Proof.
  revert acc i; induction chars as [|ch chars IH]; intros acc i.
  - simpl. unfold JS.length. simpl. lia.
  - simpl fold_left. unfold renderChar at 2. simpl fst. simpl snd.
    rewrite IH, JSFacts.length_cons. lia.
Qed.

(** The characters whose indices are all outside [lo, hi] come out as they
    are. *)
Lemma loop_outside (chars : JS.text) (acc : JS.text) (i : Z) :
  i + JS.length chars - 1 < lo \/ hi < i ->
  fold_left (renderChar ck lo hi) chars (acc, i)
  = (acc ++ chars, i + JS.length chars).
Proof.
  revert acc i; induction chars as [|ch chars IH]; intros acc i H.
  - simpl. rewrite app_nil_r. unfold JS.length. simpl. f_equal. lia.
  - pose proof (JSFacts.length_nonneg chars).
    rewrite JSFacts.length_cons in *.
    simpl fold_left. unfold renderChar at 2. simpl fst. simpl snd.
    replace ((i >=? lo) && (i <=? hi)) with false.
    + rewrite IH by lia. rewrite <- app_assoc.
      change ([ch] ++ chars) with (ch :: chars). f_equal. lia.
    + symmetry. apply andb_false_iff.
      destruct H; [left; rewrite Z.geb_leb; apply Z.leb_gt
                  | right; apply Z.leb_gt]; lia.
Qed.

(** The characters whose indices are all inside [lo, hi] come out in
    inverse video, one by one. *)
Lemma loop_inside (chars : JS.text) (acc : JS.text) (i : Z) :
  lo <= i -> i + JS.length chars - 1 <= hi ->
  fold_left (renderChar ck lo hi) chars (acc, i)
  = (acc ++ inverseEach ck chars, i + JS.length chars).
Proof.
  revert acc i; induction chars as [|ch chars IH]; intros acc i H1 H2.
  - simpl. rewrite app_nil_r. unfold JS.length. simpl. f_equal. lia.
  - pose proof (JSFacts.length_nonneg chars).
    rewrite JSFacts.length_cons in *.
    simpl fold_left. unfold renderChar at 2. simpl fst. simpl snd.
    replace ((i >=? lo) && (i <=? hi)) with true.
    + rewrite IH by lia. unfold inverseEach.
      cbn [map List.concat]. rewrite <- app_assoc. f_equal. lia.
    + symmetry. apply andb_true_iff.
      split; [rewrite Z.geb_leb|]; apply Z.leb_le; lia.
Qed.

(** The loop over a text in three parts: before, inside and after the
    inverse range. *)
Lemma loop_three (before inside after : JS.text) (acc : JS.text) :
  JS.length before - 1 < lo \/ hi < 0 ->
  inside = [] \/ (lo <= JS.length before
                  /\ JS.length before + JS.length inside - 1 <= hi) ->
  after = [] \/ hi < JS.length before + JS.length inside ->
  fst (fold_left (renderChar ck lo hi) (before ++ inside ++ after) (acc, 0))
  = acc ++ before ++ inverseEach ck inside ++ after.
Proof.
  intros Hb Hi Ha.
  destruct Ha as [-> | Ha].
  { rewrite !app_nil_r, fold_left_app.
    rewrite (loop_outside before) by lia. rewrite Z.add_0_l.
    destruct Hi as [-> | [H1 H2]].
    - simpl. rewrite !app_nil_r. reflexivity.
    - rewrite loop_inside by assumption. simpl.
      rewrite <- app_assoc. reflexivity. }
  rewrite !fold_left_app.
  rewrite (loop_outside before) by lia. rewrite Z.add_0_l.
  assert (E : fold_left (renderChar ck lo hi) inside
                (acc ++ before, JS.length before)
              = ((acc ++ before) ++ inverseEach ck inside,
                 JS.length before + JS.length inside)).
  { destruct Hi as [-> | [H1 H2]].
    - simpl. rewrite app_nil_r. unfold JS.length at 3. simpl. f_equal. lia.
    - apply loop_inside; assumption. }
  rewrite E. rewrite loop_outside by lia.
  simpl. rewrite <- !app_assoc. reflexivity.
Qed.

End RenderLoop.

(** With colors disabled the loop gives the text back. *)
Lemma loop_plain (lo hi : Z) (chars acc : JS.text) (i : Z) :
  fst (fold_left (renderChar plainChalk lo hi) chars (acc, i)) = acc ++ chars.
Proof.
  revert acc i; induction chars as [|ch chars IH]; intros acc i.
  - simpl. symmetry. apply app_nil_r.
  - simpl fold_left. unfold renderChar at 2. simpl fst. simpl snd.
    rewrite IH, <- app_assoc.
    destruct ((i >=? lo) && (i <=? hi)); reflexivity.
Qed.

Lemma ghostText_off_end (p : Props) (st : State) :
  cursorOffset st <> JS.length (value p) -> ghostText p st = [].
Proof.
  intros H. unfold ghostText. destruct (getSuggestion p); [|reflexivity].
  destruct (Z.eqb_spec (cursorOffset st) (JS.length (value p)));
    [contradiction|].
  rewrite andb_false_r. reflexivity.
Qed.

Lemma displayedValue_unmasked (p : Props) :
  mask p = None -> displayedValue p = value p.
Proof. intros H. unfold displayedValue. rewrite H. reflexivity. Qed.

Lemma length_snoc (s : JS.text) (ch : ascii) :
  JS.length (s ++ [ch]) = JS.length s + 1.
Proof. unfold JS.length. rewrite List.length_app. simpl List.length. lia. Qed.

Lemma length_positive (s : JS.text) :
  s <> [] -> (JS.length s >? 0) = true.
Proof.
  intros H. pose proof (JSFacts.length_nonneg s).
  assert (JS.length s <> 0) by (rewrite JSFacts.length_nil_iff; exact H).
  apply Z.gtb_lt. lia.
Qed.

(** X10.  For a value whose characters are all below U+0100 (one code unit
    each, as every text here is): without a mask, with the cursor shown on a
    character of the value, the rendered string is the value with that
    character in inverse video, and no ghost text; when pasted text is
    highlighted and ends just before the cursor, the pasted characters and
    the character at the cursor are in inverse video, one by one. *)
Theorem render_cursor_on_character :
  forall (ck : Chalk) (p : Props) (st : State)
         (before pasted after : JS.text) (ch : ascii),
    showCursor p = true -> focus p = true -> mask p = None ->
    value p = before ++ pasted ++ ch :: after ->
    cursorOffset st = JS.length before + JS.length pasted ->
    cursorActualWidth p st = JS.length pasted ->
    displayValue ck p st
    = Some (before ++ inverseEach ck (pasted ++ [ch]) ++ after)
    /\ (pasted = [] ->
        displayValue ck p st = Some (before ++ inverse ck [ch] ++ after)).
Proof.
  intros ck p st before pasted after ch Hs Hf Hm Hv Hc Hw.
  pose proof (JSFacts.length_nonneg before).
  pose proof (JSFacts.length_nonneg pasted).
  pose proof (JSFacts.length_nonneg after).
  assert (Hlen : JS.length (value p)
                 = JS.length before + JS.length pasted + 1 + JS.length after).
  { rewrite Hv, !JSFacts.length_app, JSFacts.length_cons. lia. }
  assert (Hne : value p <> []).
  { intros E. apply JSFacts.length_nil_iff in E. lia. }
  assert (E : displayValue ck p st
              = Some (before ++ inverseEach ck (pasted ++ [ch]) ++ after)).
  { unfold displayValue, renderedValue.
    rewrite (displayedValue_unmasked p Hm), Hs, Hf.
    rewrite (length_positive _ Hne). simpl andb.
    rewrite ghostText_off_end by lia. simpl JS.truthy. cbv iota.
    destruct (Z.eqb_spec (cursorOffset st) (JS.length (value p))); [lia|].
    rewrite Hw, Hc.
    replace (value p) with (before ++ (pasted ++ [ch]) ++ after)
      by (rewrite Hv, <- app_assoc; reflexivity).
    rewrite loop_three.
    - destruct (JS.truthy (placeholder p)); reflexivity.
    - lia.
    - right. rewrite length_snoc. lia.
    - right. rewrite length_snoc. lia. }
  split; [exact E|].
  intros ->. rewrite E. unfold inverseEach. simpl.
  rewrite app_nil_r. reflexivity.
Qed.

Lemma render_cursor_on_character_witness :
  displayValue ansiChalk (withValue defaultProps (JS.str "sel"))
    {| cursorOffset := 2; cursorWidth := 0 |}
  = Some (JS.str "se" ++ escape "7" ++ JS.str "l" ++ escape "27").
Proof.
  refine (eq_trans
            (proj2 (render_cursor_on_character ansiChalk
                      (withValue defaultProps (JS.str "sel"))
                      {| cursorOffset := 2; cursorWidth := 0 |}
                      (JS.str "se") [] [] "l"%char
                      eq_refl eq_refl eq_refl eq_refl eq_refl eq_refl)
               eq_refl) _).
  reflexivity.
Defined.

(** X11.  For a value whose characters are all below U+0100 (one code unit
    each, as every text here is): without a mask, with the cursor shown at
    the end of a value that is not empty, the rendered string is the value,
    then a space in inverse video, then the ghost text dimmed when there is
    one; pasted text that is highlighted and ends at the cursor is in inverse
    video, character by character. *)
Theorem render_cursor_at_end :
  forall (ck : Chalk) (p : Props) (st : State) (before pasted : JS.text),
    showCursor p = true -> focus p = true -> mask p = None ->
    value p = before ++ pasted -> value p <> [] ->
    cursorOffset st = JS.length (value p) ->
    cursorActualWidth p st = JS.length pasted ->
    displayValue ck p st
    = Some (before ++ inverseEach ck pasted ++ inverse ck (JS.str " ")
            ++ (if JS.truthy (ghostText p st) then dim ck (ghostText p st)
                else [])).
Proof.
  intros ck p st before pasted Hs Hf Hm Hv Hne Hc Hw.
  pose proof (JSFacts.length_nonneg before).
  pose proof (JSFacts.length_nonneg pasted).
  assert (Hlen : JS.length (value p) = JS.length before + JS.length pasted)
    by (rewrite Hv; apply JSFacts.length_app).
  assert (E : renderedValue ck p st
              = before ++ inverseEach ck pasted ++ inverse ck (JS.str " ")
                ++ (if JS.truthy (ghostText p st)
                    then dim ck (ghostText p st) else [])).
  { unfold renderedValue.
    rewrite (displayedValue_unmasked p Hm), Hs, Hf.
    rewrite (length_positive _ Hne), Hc, Z.eqb_refl. simpl andb. cbv iota.
    rewrite Hw, Hlen, Hv.
    replace (before ++ pasted) with (before ++ pasted ++ [])
      by (rewrite app_nil_r; reflexivity).
    rewrite loop_three.
    - rewrite app_nil_r.
      destruct (JS.truthy (ghostText p st));
        rewrite <- ?app_assoc, ?app_nil_r; reflexivity.
    - lia.
    - destruct pasted; [left; reflexivity | right; lia].
    - left. reflexivity. }
  unfold displayValue. rewrite (displayedValue_unmasked p Hm).
  rewrite (length_positive _ Hne), E.
  destruct (JS.truthy (placeholder p)); reflexivity.
Qed.

Lemma render_cursor_at_end_witness :
  displayValue ansiChalk (selectProps true)
    {| cursorOffset := 3; cursorWidth := 0 |}
  = Some (JS.str "sel" ++ escape "7" ++ JS.str " " ++ escape "27"
          ++ escape "2" ++ JS.str "ect * from users" ++ escape "22").
Proof.
  refine (eq_trans
            (render_cursor_at_end ansiChalk (selectProps true)
               {| cursorOffset := 3; cursorWidth := 0 |} (JS.str "sel") []
               eq_refl eq_refl eq_refl eq_refl _ eq_refl eq_refl) _).
  - discriminate.
  - reflexivity.
Defined.

(** X12.  Without a mask and with no pasted text to highlight, a cursor
    that is shown but stored outside the value (below 0 or past the length,
    as the horizontal arrows leave it at the two ends) is not drawn: the
    rendered string of a value that is not empty is the value, with nothing
    in inverse video. *)
Theorem render_cursor_out_of_range :
  forall (ck : Chalk) (p : Props) (st : State),
    showCursor p = true -> focus p = true -> mask p = None ->
    value p <> [] -> cursorActualWidth p st = 0 ->
    cursorOffset st < 0 \/ JS.length (value p) < cursorOffset st ->
    displayValue ck p st = Some (value p).
Proof.
  intros ck p st Hs Hf Hm Hne Hw Hc.
  pose proof (JSFacts.length_nonneg (value p)).
  unfold displayValue, renderedValue.
  rewrite (displayedValue_unmasked p Hm), Hs, Hf.
  rewrite (length_positive _ Hne). simpl andb.
  rewrite ghostText_off_end by lia. simpl JS.truthy. cbv iota.
  destruct (Z.eqb_spec (cursorOffset st) (JS.length (value p))); [lia|].
  rewrite Hw. rewrite loop_outside by lia. simpl.
  destruct (JS.truthy (placeholder p)); reflexivity.
Qed.

Lemma render_cursor_out_of_range_witness :
  displayValue ansiChalk (withValue defaultProps (JS.str "ab"))
    (inner (press defaultProps (widget "ab" 0) [] keyLeft))
  = Some (JS.str "ab").
Proof.
  apply render_cursor_out_of_range; try reflexivity.
  - discriminate.
  - left. reflexivity.
Defined.

(** The rendered string with colors disabled. *)
Lemma renderedValue_plain :
  forall (p : Props) (st : State),
    renderedValue plainChalk p st
    = displayedValue p
      ++ (if showCursor p && focus p
             && ((JS.length (displayedValue p) =? 0)
                 || (cursorOffset st =? JS.length (displayedValue p)))
          then JS.str " " else [])
      ++ ghostText p st.
Proof.
  intros p st. unfold renderedValue.
  pose proof (JSFacts.length_nonneg (displayedValue p)) as Hlen.
  assert (G : (if JS.truthy (ghostText p st)
               then dim plainChalk (ghostText p st) else [])
              = ghostText p st)
    by (destruct (ghostText p st); reflexivity).
  assert (E : forall r, (if JS.truthy (ghostText p st)
                         then r ++ dim plainChalk (ghostText p st) else r)
                        = r ++ ghostText p st).
  { intros r. destruct (ghostText p st); [|reflexivity].
    simpl. symmetry. apply app_nil_r. }
  rewrite E. destruct (showCursor p && focus p); simpl andb; cbv iota.
  - rewrite loop_plain.
    destruct (Z.gtb_spec (JS.length (displayedValue p)) 0) as [Hp|Hp].
    + destruct (Z.eqb_spec (JS.length (displayedValue p)) 0); [lia|].
      simpl andb. simpl orb.
      destruct (cursorOffset st =? JS.length (displayedValue p));
        rewrite <- ?app_assoc; reflexivity.
    + assert (E0 : JS.length (displayedValue p) = 0) by lia.
      rewrite E0. simpl andb. simpl orb. cbv iota.
      apply JSFacts.length_nil_iff in E0. rewrite E0. reflexivity.
  - reflexivity.
Qed.


Lemma slice_from_one (first : ascii) (rest : JS.text) :
  JS.slice_from (first :: rest) 1 = rest.
Proof.
  change (first :: rest) with ([first] ++ rest).
  apply (JSFacts.slice_from_app [first] rest).
Qed.

(** X14.  For an empty value the rendered string is the placeholder, when
    there is one: its first character in inverse video and the rest in grey
    with the cursor shown and the focus, all of it in grey otherwise, and
    never a ghost text.  Without a placeholder it is a space in inverse video
    (with the cursor shown and the focus) followed by the ghost text dimmed,
    if any. *)
Theorem render_empty_value :
  forall (ck : Chalk) (p : Props) (st : State),
    value p = [] ->
    (forall first rest,
       placeholder p = first :: rest ->
       displayValue ck p st
       = Some (if showCursor p && focus p
               then inverse ck [first] ++ grey ck rest
               else grey ck (first :: rest)))
    /\ (placeholder p = [] ->
        displayValue ck p st
        = Some ((if showCursor p && focus p then inverse ck (JS.str " ")
                 else [])
                ++ (if JS.truthy (ghostText p st)
                    then dim ck (ghostText p st) else []))).
Proof.
  intros ck p st Hv.
  assert (Hd : displayedValue p = []).
  { unfold displayedValue. rewrite Hv.
    destruct (mask p) as [m|]; [|reflexivity].
    destruct (JS.truthy m); reflexivity. }
  split.
  - intros first rest Hp. unfold displayValue, renderedPlaceholder.
    rewrite Hd, Hp. simpl JS.truthy. cbv iota.
    rewrite slice_from_one.
    destruct (showCursor p && focus p); reflexivity.
  - intros Hp. unfold displayValue, renderedValue.
    rewrite Hd, Hp. simpl JS.truthy. cbv iota.
    destruct (showCursor p && focus p); simpl;
      destruct (JS.truthy (ghostText p st));
      rewrite ?app_nil_r; reflexivity.
Qed.

Lemma render_empty_value_witness :
  displayValue ansiChalk defaultProps {| cursorOffset := 0; cursorWidth := 0 |}
  = Some (escape "7" ++ JS.str " " ++ escape "27").
Proof.
  refine (eq_trans
            (proj2 (render_empty_value ansiChalk defaultProps
                      {| cursorOffset := 0; cursorWidth := 0 |} eq_refl)
               eq_refl) _).
  reflexivity.
Defined.

(** X15.  With a mask and no suggestion provider, what is rendered depends
    on the value through its length only: two values of the same length are
    rendered alike, without a language and with one, whatever the cursor, the
    placeholder and the decorations. *)
Theorem mask_hides_value :
  forall (ck : Chalk) (p : Props) (st : State) (m v1 v2 : JS.text),
    mask p = Some m -> m <> [] -> getSuggestion p = None ->
    JS.length v1 = JS.length v2 ->
    TextInput ck (withValue p v1) st = TextInput ck (withValue p v2) st.
Proof.
  intros ck p st m v1 v2 Hm Hne Hg Hlen.
  assert (Hd : displayedValue (withValue p v1)
               = displayedValue (withValue p v2)).
  { unfold displayedValue. simpl. rewrite Hm, Hlen.
    destruct m; [contradiction | reflexivity]. }
  assert (Hgh : forall v, ghostText (withValue p v) st = []).
  { intros v. unfold ghostText. simpl. rewrite Hg. reflexivity. }
  unfold TextInput. simpl language.
  assert (E1 : displayValue ck (withValue p v1) st
               = displayValue ck (withValue p v2) st).
  { unfold displayValue, renderedValue, renderedPlaceholder,
      cursorActualWidth.
    rewrite !Hgh, Hd. reflexivity. }
  assert (E2 : forall l, renderHighlighted l (withValue p v1) st
                         = renderHighlighted l (withValue p v2) st).
  { intros l. unfold renderHighlighted, renderEmpty.
    rewrite !Hgh, Hd. reflexivity. }
  destruct (language p) as [l|]; [|rewrite E1; reflexivity].
  destruct (JS.truthy l); [rewrite E2 | rewrite E1]; reflexivity.
Qed.

Lemma mask_hides_value_witness :
  TextInput ansiChalk
    (withValue
       {| value := []; placeholder := []; focus := true;
          mask := Some (JS.str "*"); highlightPastedText := false;
          showCursor := true; onSubmit := false; language := None;
          getSuggestion := None; onSuggestionAccept := false;
          decorations := [] |} (JS.str "Hello"))
    {| cursorOffset := 5; cursorWidth := 0 |}
  = TextInput ansiChalk
      (withValue
         {| value := []; placeholder := []; focus := true;
            mask := Some (JS.str "*"); highlightPastedText := false;
            showCursor := true; onSubmit := false; language := None;
            getSuggestion := None; onSuggestionAccept := false;
            decorations := [] |} (JS.str "World"))
      {| cursorOffset := 5; cursorWidth := 0 |}.
Proof.
  apply (mask_hides_value ansiChalk _ _ (JS.str "*"));
    try reflexivity. discriminate.
Defined.

(** ** The render with a language *)

Lemma createSegments_concat (v : JS.text) (c : Z) (decs : list Decoration.t)
  (sc : bool) :
  List.concat (map Segment.text (createSegments v c decs sc)) = v.
Proof.
  unfold createSegments. rewrite segmentsOf_concat.
  - rewrite points_hd, points_last. apply JSFacts.slice_all.
  - apply StronglySorted_points.
  - apply points_in_range.
Qed.

Lemma nodeText_segmentNode (l : JS.text) (seg : Segment.t) :
  nodeText (segmentNode l seg) = Segment.text seg.
Proof.
  unfold segmentNode. destruct (Segment.isCursor seg); [reflexivity|].
  destruct (mergeDecorationStyles (Segment.decorations seg)); reflexivity.
Qed.

Lemma ghostText_at_end (p : Props) (st : State) :
  ghostText p st <> [] ->
  focus p = true /\ cursorOffset st = JS.length (value p).
Proof.
  unfold ghostText. destruct (getSuggestion p); [|contradiction].
  destruct (focus p); [|contradiction].
  destruct (Z.eqb_spec (cursorOffset st) (JS.length (value p)));
    [auto | contradiction].
Qed.

(** X16.  With a language, the texts of the rendered elements, put together
    in order, are the displayed value, then a space when the cursor is
    visible at its end, then the ghost text when it is shown: the segments
    and their styles lose, repeat and move no character.  Without a mask,
    for a value that is not empty, this is the string rendered without a
    language, styles apart. *)
Theorem render_highlighted_text :
  forall (l : JS.text) (p : Props) (st : State),
    displayedValue p <> [] ->
    List.concat (map nodeText (renderHighlighted l p st))
    = displayedValue p
      ++ (if showCursor p && focus p
             && (cursorOffset st =? JS.length (displayedValue p))
          then JS.str " " else [])
      ++ (if JS.truthy (ghostText p st) && focus p
             && (cursorOffset st =? JS.length (displayedValue p))
          then ghostText p st else [])
    /\ (mask p = None ->
        List.concat (map nodeText (renderHighlighted l p st))
        = renderedValue plainChalk p st).
Proof.
  intros l p st Hne.
  assert (Hlen : (JS.length (displayedValue p) =? 0) = false).
  { apply Z.eqb_neq. rewrite JSFacts.length_nil_iff. exact Hne. }
  assert (E : List.concat (map nodeText (renderHighlighted l p st))
              = displayedValue p
                ++ (if showCursor p && focus p
                       && (cursorOffset st =? JS.length (displayedValue p))
                    then JS.str " " else [])
                ++ (if JS.truthy (ghostText p st) && focus p
                       && (cursorOffset st =? JS.length (displayedValue p))
                    then ghostText p st else [])).
  { unfold renderHighlighted. rewrite Hlen.
    rewrite !map_app, !concat_app, map_map.
    rewrite (map_ext _ Segment.text (nodeText_segmentNode l)).
    rewrite createSegments_concat. f_equal. f_equal.
    - destruct (showCursor p && focus p
                && (cursorOffset st =? JS.length (displayedValue p)));
        reflexivity.
    - destruct (JS.truthy (ghostText p st) && focus p
                && (cursorOffset st =? JS.length (displayedValue p)));
        [simpl; apply app_nil_r | reflexivity]. }
  split; [exact E|].
  intros Hm. rewrite E, renderedValue_plain. rewrite Hlen. simpl orb.
  f_equal. f_equal.
  rewrite (displayedValue_unmasked p Hm).
  destruct (ghostText p st) as [|g gs] eqn:Hg; simpl JS.truthy.
  - simpl. destruct (_ && _); reflexivity.
  - destruct (ghostText_at_end p st) as [Hf Hc]; [rewrite Hg; discriminate|].
    rewrite Hf, Hc, Z.eqb_refl. reflexivity.
Qed.

Lemma render_highlighted_text_witness :
  List.concat
    (map nodeText
       (renderHighlighted (JS.str "sql")
          (withValue defaultProps (JS.str "selct"))
          {| cursorOffset := 5; cursorWidth := 0 |}))
  = JS.str "selct ".
Proof.
  refine (eq_trans
            (proj1 (render_highlighted_text (JS.str "sql")
                      (withValue defaultProps (JS.str "selct"))
                      {| cursorOffset := 5; cursorWidth := 0 |} _)) _).
  - discriminate.
  - reflexivity.
Defined.

(** *** The cursor segment *)

Lemma sorted_le_last (pts : list Z) (x : Z) :
  StronglySorted Z.lt pts -> In x pts -> x <= last pts 0.
Proof.
  revert x; induction pts as [|a pts IH]; intros x Hs Hx; [contradiction|].
  apply StronglySorted_inv in Hs. destruct Hs as [Hs Ha].
  rewrite Forall_forall in Ha.
  destruct pts as [|b rest]; [destruct Hx as [<-|[]]; simpl; lia|].
  change (last (a :: b :: rest) 0) with (last (b :: rest) 0).
  destruct Hx as [<-|Hx]; [|apply IH; assumption].
  specialize (Ha b (or_introl eq_refl)).
  specialize (IH b Hs (or_introl eq_refl)). lia.
Qed.

Section CursorSegment.

Variable v : JS.text.
Variable c : Z.
Variable clamped : list Decoration.t.

Lemma filter_none {A : Type} (f : A -> bool) (l : list A) :
  (forall x, In x l -> f x = false) -> filter f l = [].
Proof.
  induction l as [|x l IH]; intros H; simpl; [reflexivity|].
  rewrite (H x (or_introl eq_refl)). apply IH.
  intros y Hy. apply H. right. exact Hy.
Qed.

Lemma isCursor_start (pts : list Z) (seg : Segment.t) :
  In seg (segmentsOf v c clamped true pts) ->
  Segment.isCursor seg = true -> Segment.start seg = c.
Proof.
  intros Hin H. apply segmentsOf_fields in Hin. rewrite Hin in H.
  simpl in H. apply andb_true_iff in H. destruct H as [H _].
  apply Z.eqb_eq in H. exact H.
Qed.

(** No segment is the cursor when no segment starts at the cursor. *)
Lemma no_cursor_segment (pts : list Z) :
  StronglySorted Z.lt pts ->
  ~ In c pts \/ last pts 0 <= c ->
  filter Segment.isCursor (segmentsOf v c clamped true pts) = [].
Proof.
  intros Hs H. apply filter_none. intros seg Hin.
  destruct (Segment.isCursor seg) eqn:E; [|reflexivity]. exfalso.
  pose proof (isCursor_start pts seg Hin E) as Hst.
  destruct (segmentsOf_spans v c clamped true pts seg Hs Hin)
    as (H1 & H2 & H3 & _).
  destruct H as [H|H]; [apply H; rewrite <- Hst; exact H1|].
  pose proof (sorted_le_last pts (Segment.end_ seg) Hs H2). lia.
Qed.

(** Exactly one segment is the cursor when the cursor and the place after
    it are both points of the walk. *)
Lemma one_cursor_segment (pts : list Z) :
  StronglySorted Z.lt pts -> In c pts -> In (c + 1) pts ->
  filter Segment.isCursor (segmentsOf v c clamped true pts)
  = [makeSegment v c clamped true c (c + 1)].
Proof.
  induction pts as [|a pts IH]; intros Hs Hc Hc1; [contradiction|].
  pose proof Hs as Hs0.
  apply StronglySorted_inv in Hs. destruct Hs as [Hs Ha].
  rewrite Forall_forall in Ha.
  destruct pts as [|b rest].
  { destruct Hc as [<-|[]]. destruct Hc1 as [E|[]]. lia. }
  rewrite segmentsOf_cons2.
  destruct (Z.eq_dec a c) as [->|Hne].
  - assert (b = c + 1).
    { pose proof (Ha b (or_introl eq_refl)).
      destruct Hc1 as [E|[E|Hin]]; [lia | exact E |].
      apply StronglySorted_inv in Hs. destruct Hs as [_ Hb].
      rewrite Forall_forall in Hb. specialize (Hb _ Hin).
      specialize (Ha _ (or_intror Hin)). lia. }
    subst b. cbn [filter makeSegment Segment.isCursor].
    rewrite !Z.eqb_refl. cbn [andb].
    f_equal. apply no_cursor_segment; [exact Hs|].
    left. intros Hin. specialize (Ha _ Hin). lia.
  - cbn [filter makeSegment Segment.isCursor].
    replace (a =? c) with false by (symmetry; apply Z.eqb_neq; exact Hne).
    cbn [andb]. apply IH; [exact Hs | |].
    + destruct Hc as [E|Hc]; [contradiction | exact Hc].
    + destruct Hc as [E|Hc]; [contradiction|].
      destruct Hc1 as [E|Hc1]; [|exact Hc1].
      specialize (Ha _ Hc). lia.
Qed.

End CursorSegment.

(** The text between a place and the next one is the character at that
    place. *)
Lemma slice_one (v : JS.text) (c : Z) :
  0 <= c < JS.length v -> JS.slice v c (c + 1) = JS.charAt v c.
Proof.
  intros Hc. unfold JS.charAt.
  destruct (Z.leb_spec 0 c); [|lia].
  destruct (Z.ltb_spec c (JS.length v)); [|lia]. simpl.
  rewrite JSFacts.slice_in_range by lia.
  replace (c + 1 - c) with 1 by lia. reflexivity.
Qed.

Lemma isInverse_segmentNode (l : JS.text) (seg : Segment.t) :
  isInverse (segmentNode l seg) = Segment.isCursor seg.
Proof.
  unfold segmentNode. destruct (Segment.isCursor seg); [reflexivity|].
  destruct (mergeDecorationStyles (Segment.decorations seg)); reflexivity.
Qed.

Lemma filter_map_commute {A B : Type} (f : A -> B) (g : B -> bool)
  (l : list A) :
  filter g (map f l) = map f (filter (fun x => g (f x)) l).
Proof.
  induction l as [|x l IH]; simpl; [reflexivity|].
  destruct (g (f x)); simpl; rewrite IH; reflexivity.
Qed.

(** The segments that are rendered in inverse video. *)
Lemma inverse_segments (l v : JS.text) (c : Z) (decs : list Decoration.t)
  (sc : bool) :
  filter isInverse (map (segmentNode l) (createSegments v c decs sc))
  = if sc && (0 <=? c) && (c <? JS.length v)
    then [TextInverse (Some (cursorKey, c)) (JS.charAt v c)]
    else [].
Proof.
  rewrite filter_map_commute.
  rewrite (filter_ext _ Segment.isCursor (isInverse_segmentNode l)).
  unfold createSegments.
  pose proof (JSFacts.length_nonneg v) as Hlen.
  destruct sc; simpl andb.
  - pose proof (StronglySorted_points v c (clampedDecorations v decs) true)
      as Hs.
    destruct (Z.leb_spec 0 c); simpl andb.
    + destruct (Z.ltb_spec c (JS.length v)).
      * rewrite one_cursor_segment; [| exact Hs | |].
        -- simpl. unfold segmentNode. simpl. rewrite !Z.eqb_refl. simpl.
           rewrite slice_one by lia. reflexivity.
        -- apply In_points. split; [|lia]. apply In_splitPoints.
           right; right; left. auto.
        -- apply In_points. split; [|lia]. apply In_splitPoints.
           right; right; left. auto.
      * rewrite no_cursor_segment; [reflexivity | exact Hs |].
        right. rewrite points_last. lia.
    + rewrite no_cursor_segment; [reflexivity | exact Hs |].
      left. intros Hin. apply points_in_range in Hin. lia.
  - rewrite filter_none; [reflexivity|].
    intros seg Hin. apply segmentsOf_fields in Hin. rewrite Hin.
    reflexivity.
Qed.

(** X17.  With a language and a value that is not empty, the cursor is drawn
    exactly once when it is visible and stored inside the value or at its
    end, and not at all otherwise: the elements in inverse video are the
    character at the cursor alone, or the space after the value alone, or
    none.  The element of the cursor carries no decoration style, whatever
    decorations cover it. *)
Theorem render_highlighted_cursor :
  forall (l : JS.text) (p : Props) (st : State),
    displayedValue p <> [] ->
    filter isInverse (renderHighlighted l p st)
    = if showCursor p && focus p && (0 <=? cursorOffset st)
         && (cursorOffset st <? JS.length (displayedValue p))
      then [TextInverse (Some (cursorKey, cursorOffset st))
              (JS.charAt (displayedValue p) (cursorOffset st))]
      else if showCursor p && focus p
              && (cursorOffset st =? JS.length (displayedValue p))
           then [TextInverse None (JS.str " ")]
           else [].
Proof.
  intros l p st Hne.
  assert (Hlen : (JS.length (displayedValue p) =? 0) = false).
  { apply Z.eqb_neq. rewrite JSFacts.length_nil_iff. exact Hne. }
  pose proof (JSFacts.length_nonneg (displayedValue p)) as Hpos.
  unfold renderHighlighted. rewrite Hlen.
  rewrite !filter_app, inverse_segments.
  replace (filter isInverse
             (if JS.truthy (ghostText p st) && focus p
                 && (cursorOffset st =? JS.length (displayedValue p))
              then [TextDim (ghostText p st)] else []))
    with (@nil Node) by (destruct (_ && _ && _); reflexivity).
  rewrite app_nil_r.
  destruct (showCursor p && focus p); simpl andb; [|reflexivity].
  destruct (Z.eqb_spec (cursorOffset st) (JS.length (displayedValue p)))
    as [E|E].
  - rewrite E, Z.ltb_irrefl, andb_false_r. reflexivity.
  - destruct ((0 <=? cursorOffset st)
              && (cursorOffset st <? JS.length (displayedValue p)));
      reflexivity.
Qed.

Lemma render_highlighted_cursor_witness :
  filter isInverse
    (renderHighlighted (JS.str "sql")
       {| value := JS.str "selct"; placeholder := []; focus := true;
          mask := None; highlightPastedText := false; showCursor := true;
          onSubmit := false; language := Some (JS.str "sql");
          getSuggestion := None; onSuggestionAccept := false;
          decorations := [Decoration.mk 0 5 error] |}
       {| cursorOffset := 2; cursorWidth := 0 |})
  = [TextInverse (Some (cursorKey, 2)) (JS.str "l")].
Proof.
  refine (eq_trans (render_highlighted_cursor _ _ _ _) _).
  - discriminate.
  - reflexivity.
Defined.

(** *** The keys of the elements *)

Lemma segmentsOf_sorted (v : JS.text) (c : Z) (clamped : list Decoration.t)
  (sc : bool) (pts : list Z) :
  StronglySorted Z.lt pts ->
  StronglySorted (fun s1 s2 => Segment.start s1 < Segment.start s2)
    (segmentsOf v c clamped sc pts).
Proof.
  induction pts as [|a pts IH]; intros Hs; [constructor|].
  destruct pts as [|b rest]; [constructor|].
  rewrite segmentsOf_cons2.
  pose proof Hs as Hs0.
  apply StronglySorted_inv in Hs. destruct Hs as [Hs Ha].
  rewrite Forall_forall in Ha.
  constructor; [apply IH, Hs|].
  apply Forall_forall. intros seg Hin. simpl.
  destruct (segmentsOf_spans v c clamped sc (b :: rest) seg Hs Hin)
    as (H1 & _).
  apply Ha, H1.
Qed.

Lemma NoDup_map_sorted {A B : Type} (R : A -> A -> Prop) (f : A -> B)
  (l : list A) :
  (forall x y, R x y -> f x <> f y) ->
  StronglySorted R l -> NoDup (map f l).
Proof.
  intros HR. induction 1 as [|x l Hs IH Hx]; simpl; constructor; [|exact IH].
  rewrite Forall_forall in Hx. intros Hin.
  apply in_map_iff in Hin. destruct Hin as (y & Hy & Hin).
  apply (HR x y (Hx y Hin)). symmetry. exact Hy.
Qed.

Lemma nodeKey_segmentNode (l : JS.text) (seg : Segment.t) :
  exists kind, nodeKey (segmentNode l seg) = Some (kind, Segment.start seg).
Proof.
  unfold segmentNode. destruct (Segment.isCursor seg); [eexists; reflexivity|].
  destruct (mergeDecorationStyles (Segment.decorations seg));
    eexists; reflexivity.
Qed.

(** X18.  The elements made from the segments all have a key, and no two of
    them have the same key, whatever the value, the cursor and the
    decorations: the keys are built from the starts of the segments, which
    increase strictly. *)
Theorem segment_keys_distinct :
  forall (l v : JS.text) (c : Z) (decs : list Decoration.t) (sc : bool),
    NoDup (map nodeKey (map (segmentNode l) (createSegments v c decs sc)))
    /\ Forall (fun n => nodeKey n <> None)
         (map (segmentNode l) (createSegments v c decs sc)).
Proof.
  intros l v c decs sc. split.
  - rewrite map_map.
    apply (NoDup_map_sorted
             (fun s1 s2 => Segment.start s1 < Segment.start s2)).
    + intros x y Hlt E.
      destruct (nodeKey_segmentNode l x) as [k1 E1].
      destruct (nodeKey_segmentNode l y) as [k2 E2].
      rewrite E1, E2 in E. injection E as _ E. lia.
    + apply segmentsOf_sorted, StronglySorted_points.
  - apply Forall_forall. intros n Hin.
    apply in_map_iff in Hin. destruct Hin as (seg & <- & _).
    destruct (nodeKey_segmentNode l seg) as [k E]. rewrite E. discriminate.
Qed.

(** *** The two versions of the component *)

(** Two strictly increasing walks with the same points are the same walk. *)
Lemma sorted_ext (l1 l2 : list Z) :
  StronglySorted Z.lt l1 -> StronglySorted Z.lt l2 ->
  (forall x, In x l1 <-> In x l2) -> l1 = l2.
Proof.
  revert l2; induction l1 as [|a l1 IH]; intros [|b l2] H1 H2 H.
  - reflexivity.
  - exfalso. apply (proj2 (H b)). left. reflexivity.
  - exfalso. apply (proj1 (H a)). left. reflexivity.
  - apply StronglySorted_inv in H1. destruct H1 as [H1 Ha].
    apply StronglySorted_inv in H2. destruct H2 as [H2 Hb].
    rewrite Forall_forall in Ha, Hb.
    assert (a = b).
    { destruct (proj1 (H a) (or_introl eq_refl)) as [E|Hin]; [auto|].
      destruct (proj2 (H b) (or_introl eq_refl)) as [E|Hin']; [auto|].
      specialize (Ha _ Hin'). specialize (Hb _ Hin). lia. }
    subst b. f_equal. apply IH; [exact H1 | exact H2|].
    intros x. split; intros Hx.
    + destruct (proj1 (H x) (or_intror Hx)) as [E|Hin]; [|exact Hin].
      specialize (Ha _ Hx). lia.
    + destruct (proj2 (H x) (or_intror Hx)) as [E|Hin]; [|exact Hin].
      specialize (Hb _ Hx). lia.
Qed.

(** The points of a value without decorations, the cursor shown inside it
    or at its end. *)
Lemma points_undecorated (v : JS.text) (c : Z) :
  0 <= c <= JS.length v -> 0 < JS.length v ->
  points v c [] true
  = (if c =? 0 then [] else [0])
      ++ [c]
      ++ (if c <? JS.length v then [c + 1] else [])
      ++ (if c + 1 <? JS.length v then [JS.length v] else []).
Proof.
  intros Hc Hn. apply sorted_ext.
  - apply StronglySorted_points.
  - destruct (Z.eqb_spec c 0); destruct (Z.ltb_spec c (JS.length v));
      destruct (Z.ltb_spec (c + 1) (JS.length v)); simpl;
      repeat (constructor; try lia).
  - intros x. rewrite In_points, In_splitPoints.
    destruct (Z.eqb_spec c 0); destruct (Z.ltb_spec c (JS.length v));
      destruct (Z.ltb_spec (c + 1) (JS.length v)); simpl;
      (split;
       [intros [[Hx|[Hx|[[_ [Hx|[_ Hx]]]|[d [[] _]]]]] Hr]
       |intros Hx; split; [|intuition lia]]);
      intuition lia.
Qed.

Lemma truthy_length (s : JS.text) : JS.truthy s = (JS.length s >? 0).
Proof.
  destruct s as [|ch s]; [reflexivity|].
  pose proof (JSFacts.length_nonneg s). rewrite JSFacts.length_cons.
  change (JS.truthy (ch :: s)) with true. symmetry. apply Z.gtb_lt. lia.
Qed.

Lemma truthy_slice (v : JS.text) (a b : Z) :
  0 <= a -> 0 <= b <= JS.length v -> JS.truthy (JS.slice v a b) = (a <? b).
Proof.
  intros Ha Hb. rewrite truthy_length, length_slice. unfold JS.rel_index.
  destruct (Z.ltb_spec a 0); [lia|].
  destruct (Z.ltb_spec b 0); [lia|].
  destruct (Z.ltb_spec a b).
  - apply Z.gtb_lt. lia.
  - rewrite Z.gtb_ltb. apply Z.ltb_ge. lia.
Qed.

Lemma charAt_at_end (v : JS.text) : JS.charAt v (JS.length v) = [].
Proof.
  unfold JS.charAt. rewrite Z.ltb_irrefl, andb_false_r. reflexivity.
Qed.

Lemma undecorated_node (l v : JS.text) (c a b : Z) :
  withoutKey (segmentNode l (makeSegment v c [] true a b))
  = if (a =? c) && (b =? c + 1) then TextInverse None (JS.slice v a b)
    else SyntaxHighlight None l (JS.slice v a b).
Proof.
  unfold segmentNode, makeSegment. simpl.
  destruct ((a =? c) && (b =? c + 1)); reflexivity.
Qed.

Lemma withoutKey_renderEmpty (p : Props) :
  map withoutKey (renderEmpty p) = renderEmpty p.
Proof.
  unfold renderEmpty. destruct (JS.truthy (placeholder p));
    destruct (showCursor p && focus p); reflexivity.
Qed.

(** X19.  Without decorations, with the cursor visible and stored inside the
    value or at its end, the component with decorations renders what the
    earlier component without them renders, keys apart: the text before the
    cursor highlighted, the character at the cursor (or a space at the end)
    in inverse video, the text after the cursor highlighted, and the ghost
    text. *)
Theorem legacy_render_agrees :
  forall (l : JS.text) (p : Props) (st : State),
    decorations p = [] -> showCursor p = true -> focus p = true ->
    0 <= cursorOffset st <= JS.length (displayedValue p) ->
    map withoutKey (renderHighlighted l p st)
    = legacyRenderHighlighted l p st.
Proof.
  intros l p st Hd Hs Hf Hc.
  unfold renderHighlighted, legacyRenderHighlighted.
  set (v := displayedValue p) in *. set (c := cursorOffset st) in *.
  destruct (Z.eqb_spec (JS.length v) 0) as [E0|E0];
    [apply withoutKey_renderEmpty|].
  assert (Hn : 0 < JS.length v) by lia.
  rewrite Hs, Hf, Hd. simpl andb. cbv iota.
  rewrite !map_app. unfold createSegments.
  change (clampedDecorations v []) with (@nil Decoration.t).
  rewrite points_undecorated by assumption.
  replace (map withoutKey
             (if JS.truthy (ghostText p st) && true && (c =? JS.length v)
              then [TextDim (ghostText p st)] else []))
    with (if JS.truthy (ghostText p st) && true && (c =? JS.length v)
          then [TextDim (ghostText p st)] else [])
    by (destruct (_ && _ && _); reflexivity).
  replace (map withoutKey
             (if c =? JS.length v then [TextInverse None (JS.str " ")]
              else []))
    with (if c =? JS.length v then [TextInverse None (JS.str " ")] else [])
    by (destruct (c =? JS.length v); reflexivity).
  unfold JS.slice_from.
  destruct (Z.ltb_spec c (JS.length v)) as [Hlt|Hge].
  - rewrite <- (slice_one v c) by lia.
    rewrite (truthy_slice v 0 c), (truthy_slice v c (c + 1)) by lia.
    destruct (Z.eqb_spec c (JS.length v)); [lia|].
    destruct (Z.ltb_spec c (c + 1)); [|lia]. cbv iota.
    rewrite (truthy_slice v (c + 1) (JS.length v)) by lia.
    destruct (Z.eqb_spec c 0) as [Ez|Ez];
      destruct (Z.ltb_spec (c + 1) (JS.length v));
      destruct (Z.ltb_spec 0 c); try lia;
      cbn [app segmentsOf map]; rewrite ?undecorated_node;
      rewrite ?Z.eqb_refl; cbn [andb];
      repeat match goal with
             | |- context [?a =? ?b] =>
                 destruct (Z.eqb_spec a b); try lia
             end;
      cbn [andb]; reflexivity.
  - assert (Ec : c = JS.length v) by lia.
    rewrite Ec, charAt_at_end, Z.eqb_refl. simpl JS.truthy. cbv iota.
    rewrite (truthy_slice v 0 (JS.length v)) by lia.
    destruct (Z.eqb_spec (JS.length v) 0); [lia|].
    destruct (Z.ltb_spec (JS.length v + 1) (JS.length v)); [lia|].
    destruct (Z.ltb_spec 0 (JS.length v)); [|lia].
    cbn [app segmentsOf map]. rewrite undecorated_node.
    destruct (Z.eqb_spec 0 (JS.length v)); [lia|]. reflexivity.
Qed.

Lemma legacy_render_agrees_witness :
  map withoutKey
    (renderHighlighted (JS.str "sql") (withValue defaultProps (JS.str "sel"))
       {| cursorOffset := 1; cursorWidth := 0 |})
  = legacyRenderHighlighted (JS.str "sql")
      (withValue defaultProps (JS.str "sel"))
      {| cursorOffset := 1; cursorWidth := 0 |}.
Proof.
  apply legacy_render_agrees; try reflexivity.
  vm_compute. split; discriminate.
Defined.

(** In the earlier component a cursor stored at -1 cuts the value: the text
    before the cursor is [value.slice(0, -1)]. *)
Lemma slice_to_minus_one (v : JS.text) : JS.slice v 0 (-1) = removelast v.
Proof.
  pose proof (JSFacts.length_nonneg v) as Hn.
  unfold JS.slice, JS.rel_index.
  change (0 <? 0) with false. change (-1 <? 0) with true. cbv iota.
  rewrite Z.min_l by lia. change (Z.to_nat 0) with 0%nat.
  cbn [skipn]. rewrite removelast_firstn_len. f_equal.
  unfold JS.length. lia.
Qed.

(** X20.  With the cursor visible and stored at -1 (where the left arrow
    leaves it from the first place), the earlier component without
    decorations renders the value without its last character, and an empty
    element in inverse video; the component with decorations renders the
    whole value, and nothing in inverse video. *)
Theorem legacy_render_drops_last :
  forall (l : JS.text) (p : Props) (st : State),
    showCursor p = true -> focus p = true -> mask p = None ->
    value p <> [] -> cursorOffset st = -1 ->
    legacyRenderHighlighted l p st
    = (if JS.truthy (removelast (value p))
       then [SyntaxHighlight None l (removelast (value p))] else [])
        ++ [TextInverse None []]
    /\ List.concat (map nodeText (renderHighlighted l p st)) = value p
    /\ filter isInverse (renderHighlighted l p st) = [].
Proof.
  intros l p st Hs Hf Hm Hne Hc.
  pose proof (JSFacts.length_nonneg (value p)) as Hn.
  assert (Hlen : (JS.length (value p) =? 0) = false).
  { apply Z.eqb_neq. rewrite JSFacts.length_nil_iff. exact Hne. }
  assert (Hend : (-1 =? JS.length (value p)) = false)
    by (apply Z.eqb_neq; lia).
  assert (Hg : ghostText p st = [])
    by (apply ghostText_off_end; rewrite Hc; lia).
  split; [|split].
  - unfold legacyRenderHighlighted.
    rewrite (displayedValue_unmasked p Hm), Hlen, Hs, Hf, Hc, Hg, Hend.
    rewrite slice_to_minus_one. unfold JS.charAt. simpl. reflexivity.
  - unfold renderHighlighted.
    rewrite (displayedValue_unmasked p Hm), Hlen, Hs, Hf, Hc, Hg, Hend.
    simpl. rewrite !app_nil_r, map_map.
    rewrite (map_ext _ Segment.text (nodeText_segmentNode l)).
    apply createSegments_concat.
  - unfold renderHighlighted.
    rewrite (displayedValue_unmasked p Hm), Hlen, Hs, Hf, Hc, Hg, Hend.
    simpl. rewrite !app_nil_r. rewrite inverse_segments. reflexivity.
Qed.

Lemma legacy_render_drops_last_witness :
  legacyRenderHighlighted (JS.str "sql")
    (withValue defaultProps (JS.str "ab"))
    (inner (press defaultProps (widget "ab" 0) [] keyLeft))
  = [SyntaxHighlight None (JS.str "sql") (JS.str "a"); TextInverse None []].
Proof.
  refine (eq_trans
            (proj1 (legacy_render_drops_last (JS.str "sql")
                      (withValue defaultProps (JS.str "ab"))
                      (inner (press defaultProps (widget "ab" 0) [] keyLeft))
                      eq_refl eq_refl eq_refl _ eq_refl)) _).
  - discriminate.
  - reflexivity.
Defined.

(** ** The effect that follows a change of value *)

(** X21.  The reconciliation is idempotent; with the focus and the cursor
    shown it leaves the cursor at most at the end of the value, resets the
    paste width whenever the cursor is at the end, and leaves a negative
    cursor as it is. *)
Theorem reconcile_bounds_cursor :
  forall (p : Props) (st : State),
    reconcile p (reconcile p st) = reconcile p st
    /\ (focus p = true -> showCursor p = true ->
        cursorOffset (reconcile p st) <= JS.length (value p)
        /\ (cursorOffset st = JS.length (value p) ->
            cursorWidth (reconcile p st) = 0)
        /\ (cursorOffset st < 0 -> reconcile p st = st)).
Proof.
  intros p st. pose proof (JSFacts.length_nonneg (value p)) as Hn.
  unfold reconcile.
  destruct (focus p); destruct (showCursor p); simpl;
    try (split; [reflexivity | intros; discriminate]).
  destruct (Z.gtb_spec (cursorOffset st) (JS.length (value p) - 1)) as [H|H];
    simpl.
  - destruct (Z.gtb_spec (JS.length (value p)) (JS.length (value p) - 1));
      [|lia].
    split; [reflexivity|]. intros _ _.
    repeat split; simpl; intros; try lia; try reflexivity.
  - destruct (Z.gtb_spec (cursorOffset st) (JS.length (value p) - 1));
      [lia|].
    split; [reflexivity|]. intros _ _.
    repeat split; simpl; intros; try lia; try reflexivity.
Qed.

Lemma reconcile_bounds_cursor_witness :
  cursorOffset
    (reconcile (withValue defaultProps (JS.str "ab"))
       {| cursorOffset := 7; cursorWidth := 3 |})
  <= JS.length (value (withValue defaultProps (JS.str "ab"))).
Proof.
  apply (proj2 (reconcile_bounds_cursor
                  (withValue defaultProps (JS.str "ab"))
                  {| cursorOffset := 7; cursorWidth := 3 |})
           eq_refl eq_refl).
Defined.

(** ** The demo *)

Lemma length_toLowerCase (s : JS.text) :
  List.length (JS.toLowerCase s) = List.length s.
Proof. unfold JS.toLowerCase. apply List.length_map. Qed.

Lemma same_length_prefix {A : Type} (a b r1 r2 : list A) :
  a ++ r1 = b ++ r2 -> List.length a = List.length b -> a = b.
Proof.
  revert b; induction a as [|x a IH]; intros [|y b] H Hl;
    try reflexivity; try discriminate.
  simpl in H. injection H as -> H. f_equal.
  apply IH; [exact H | simpl in Hl; lia].
Qed.

(** What the provider of the demo finds. *)
Lemma demo_suggestion_found (input s : JS.text) :
  Demo.getSuggestion input = Some s ->
  input <> [] /\ In s Demo.sqlCommands
  /\ (exists rest, rest <> [] /\ s = JS.toLowerCase input ++ rest).
Proof.
  unfold Demo.getSuggestion.
  destruct (Z.eqb_spec (JS.length input) 0) as [E|E]; [discriminate|].
  intros H. apply find_some in H. destruct H as [Hin H].
  apply andb_true_iff in H. destruct H as [Hst Hne].
  apply JSFacts.startsWith_iff in Hst. destruct Hst as [rest ->].
  apply negb_true_iff, JSFacts.eqb_neq in Hne.
  split; [intros ->; apply E; reflexivity|]. split; [exact Hin|].
  exists rest. split; [|reflexivity].
  intros ->. apply Hne. apply app_nil_r.
Qed.

(** The component takes the suggestion of the demo as valid exactly when the
    input is in lower case. *)
Lemma demo_suggestion_valid (input : JS.text) :
  validSuggestion Demo.getSuggestion input
  = if JS.eqb (JS.toLowerCase input) input
    then Demo.getSuggestion input else None.
Proof.
  unfold validSuggestion.
  destruct (Demo.getSuggestion input) as [s|] eqn:H;
    [|destruct (JS.eqb (JS.toLowerCase input) input); reflexivity].
  destruct (demo_suggestion_found input s H) as (Hi & _ & rest & Hr & ->).
  destruct (JS.eqb (JS.toLowerCase input) input) eqn:E.
  - apply JSFacts.eqb_eq in E. rewrite E.
    replace (JS.truthy (input ++ rest)) with true
      by (destruct input; [contradiction | reflexivity]).
    replace (JS.startsWith (input ++ rest) input) with true
      by (symmetry; apply JSFacts.startsWith_iff; eauto).
    replace (JS.eqb (input ++ rest) input) with false; [reflexivity|].
    symmetry. apply JSFacts.eqb_neq. intros H'.
    rewrite <- (app_nil_r input) in H' at 2.
    apply app_inv_head in H'. contradiction.
  - apply JSFacts.eqb_neq in E.
    replace (JS.startsWith (JS.toLowerCase input ++ rest) input)
      with false; [rewrite andb_false_r; reflexivity|].
    symmetry. destruct (JS.startsWith (JS.toLowerCase input ++ rest) input)
      eqn:Es; [|reflexivity].
    exfalso. apply JSFacts.startsWith_iff in Es. destruct Es as [r2 Es].
    apply E. apply (same_length_prefix _ _ _ _ Es).
    apply length_toLowerCase.
Qed.

(** No command of the demo extends another. *)
Lemma demo_commands_final (cmd : JS.text) :
  In cmd Demo.sqlCommands -> Demo.getSuggestion cmd = None.
Proof.
  intros Hin. unfold Demo.sqlCommands in Hin. simpl in Hin.
  repeat (destruct Hin as [<-|Hin]; [vm_compute; reflexivity|]).
  contradiction.
Qed.

(** X23.  In the demo, return with a value that is not blank appends the
    value to the history and clears the input, and the cursor, if it was not
    negative, goes to 0 with the paste width; return with an empty or blank
    value changes nothing. *)
Theorem demo_submit :
  forall (d : Demo.t) (text : JS.text),
    (JS.trim (Demo.value d) <> [] ->
     Demo.press d text keyReturn
     = {| Demo.value := [];
          Demo.submitted := Demo.submitted d ++ [Demo.value d];
          Demo.input := reconcile (Demo.props []) (Demo.input d) |}
     /\ (0 <= cursorOffset (Demo.input d) ->
         Demo.input (Demo.press d text keyReturn)
         = {| cursorOffset := 0; cursorWidth := 0 |}))
    /\ (JS.trim (Demo.value d) = [] -> Demo.press d text keyReturn = d).
Proof.
  intros d text. unfold Demo.press, useInput, handleInput. simpl.
  unfold Demo.handleSubmit. split.
  - intros Hne.
    assert (Hv : Demo.value d <> []) by (intros E; apply Hne; rewrite E;
                                         reflexivity).
    destruct (JS.trim (Demo.value d)); [contradiction|]. simpl.
    destruct (Demo.value d) as [|ch rest]; [contradiction|].
    split; [reflexivity|].
    intros Hc. simpl. unfold reconcile. simpl.
    destruct (Z.gtb_spec (cursorOffset (Demo.input d)) (-1)); [|lia].
    reflexivity.
  - intros ->. simpl. rewrite JSFacts.eqb_refl. destruct d; reflexivity.
Qed.

Lemma demo_submit_witness :
  Demo.press
    {| Demo.value := JS.str "drop table"; Demo.submitted := [];
       Demo.input := {| cursorOffset := 10; cursorWidth := 0 |} |}
    [] keyReturn
  = {| Demo.value := [];
       Demo.submitted := [JS.str "drop table"];
       Demo.input := {| cursorOffset := 0; cursorWidth := 0 |} |}.
Proof.
  refine (eq_trans
            (proj1 (proj1 (demo_submit
                             {| Demo.value := JS.str "drop table";
                                Demo.submitted := [];
                                Demo.input := {| cursorOffset := 10;
                                                 cursorWidth := 0 |} |}
                             []) _)) _).
  - vm_compute. discriminate.
  - reflexivity.
Defined.

(** ** More on the segments *)

(** X25.  No segment is cut without a reason: each end of each segment is
    an end of the value, the cursor or the place after it (with the cursor
    shown), or an end of a clamped decoration that is not empty. *)
Theorem segment_ends_are_boundaries :
  forall (v : JS.text) (c : Z) (decs : list Decoration.t) (sc : bool)
         (seg : Segment.t) (x : Z),
    In seg (createSegments v c decs sc) ->
    x = Segment.start seg \/ x = Segment.end_ seg ->
    x = 0 \/ x = JS.length v
    \/ cursorBoundary c sc x \/ decorationBoundary v decs x.
Proof.
  intros v c decs sc seg x Hin Hx. unfold createSegments in Hin.
  destruct (segmentsOf_spans v c (clampedDecorations v decs) sc _ seg
              (StronglySorted_points _ _ _ _) Hin) as (H1 & H2 & _).
  assert (Hp : In x (points v c (clampedDecorations v decs) sc))
    by (destruct Hx as [-> | ->]; assumption).
  apply In_points in Hp. destruct Hp as [Hp _].
  apply In_splitPoints in Hp.
  destruct Hp as [Hp|[Hp|[[Hsc Hp]|Hp]]]; auto.
  right; right; left. split; [exact Hsc|]. tauto.
Qed.

Lemma segment_ends_are_boundaries_witness :
  3 = 0 \/ 3 = JS.length (JS.str "selct")
  \/ cursorBoundary 5 true 3
  \/ decorationBoundary (JS.str "selct") [Decoration.mk 0 3 error] 3.
Proof.
  apply (segment_ends_are_boundaries (JS.str "selct") 5
           [Decoration.mk 0 3 error] true
           (Segment.mk (JS.str "ct") 3 5 false [])).
  - right; left. reflexivity.
  - left. reflexivity.
Defined.

(** X26.  A decoration that is not empty after clamping is attached to a
    segment only if it covers the whole segment: inside one segment the
    styling is the same everywhere. *)
Theorem attached_decoration_covers_segment :
  forall (v : JS.text) (c : Z) (decs : list Decoration.t) (sc : bool)
         (seg : Segment.t) (d : Decoration.t),
    In seg (createSegments v c decs sc) ->
    In d (Segment.decorations seg) ->
    Decoration.start d < Decoration.end_ d ->
    Decoration.start d <= Segment.start seg
    /\ Segment.end_ seg <= Decoration.end_ d.
Proof.
  intros v c decs sc seg d Hin Hd Hlt. unfold createSegments in Hin.
  pose proof (segmentsOf_fields _ _ _ _ _ _ Hin) as Hf.
  rewrite Hf in Hd. simpl in Hd. apply filter_In in Hd.
  destruct Hd as [Hd Ho]. unfold overlaps in Ho.
  apply andb_true_iff in Ho. destruct Ho as [Ho1 Ho2].
  apply Z.ltb_lt in Ho1. apply Z.gtb_gt in Ho2.
  destruct (segmentsOf_spans v c (clampedDecorations v decs) sc _ seg
              (StronglySorted_points _ _ _ _) Hin) as (H1 & H2 & H3 & Hno).
  apply points_in_range in H1. apply points_in_range in H2.
  pose proof (clampDecoration_in_range (JS.length v)) as Hcl.
  unfold clampedDecorations in Hd. apply in_map_iff in Hd.
  destruct Hd as (d0 & <- & Hd0).
  specialize (Hcl d0 (JSFacts.length_nonneg v)).
  assert (Hin' : In (clampDecoration (JS.length v) d0)
                   (clampedDecorations v decs))
    by (apply in_map; exact Hd0).
  split.
  - destruct (Z.le_gt_cases
                (Decoration.start (clampDecoration (JS.length v) d0))
                (Segment.start seg)) as [H|H]; [exact H|].
    exfalso.
    apply (Hno (Decoration.start (clampDecoration (JS.length v) d0))).
    + apply In_points. split; [|lia]. apply In_splitPoints.
      right; right; right. eauto.
    + unfold straddles. lia.
  - destruct (Z.le_gt_cases (Segment.end_ seg)
                (Decoration.end_ (clampDecoration (JS.length v) d0)))
      as [H|H]; [exact H|].
    exfalso.
    apply (Hno (Decoration.end_ (clampDecoration (JS.length v) d0))).
    + apply In_points. split; [|lia]. apply In_splitPoints.
      right; right; right. eauto.
    + unfold straddles. lia.
Qed.

Lemma attached_decoration_covers_segment_witness :
  Decoration.start (Decoration.mk 2 8 highlight) <= 5
  /\ 8 <= Decoration.end_ (Decoration.mk 2 8 highlight).
Proof.
  apply (attached_decoration_covers_segment (JS.str "abcdefgh") 8
           [Decoration.mk 0 5 error; Decoration.mk 2 8 highlight] true
           (Segment.mk (JS.str "fgh") 5 8 false [Decoration.mk 2 8 highlight])
           (Decoration.mk 2 8 highlight)).
  - right; right; left. reflexivity.
  - left. reflexivity.
  - simpl. lia.
Defined.

(** ** Deleting to the left, whatever the cursor *)

(** Backspace or delete with the cursor past the end of the value: nothing
    is removed, and the cursor goes to the end. *)
Lemma handleInput_delete_past_end (p : Props) (st : State) (input : JS.text)
  (key : Key) :
  key = keyBackspace \/ key = keyDelete ->
  cursorOffset st > JS.length (value p) ->
  handleInput p st input key
  = [SetState {| cursorOffset := JS.length (value p); cursorWidth := 0 |}].
Proof.
  intros Hk Hc. pose proof (JSFacts.length_nonneg (value p)) as Hn.
  unfold handleInput, edit.
  destruct Hk as [-> | ->]; simpl;
    (destruct (Z.gtb_spec (cursorOffset st) 0); [|lia]);
    rewrite slice_past_end, slice_from_past_end, app_nil_r by lia;
    rewrite JSFacts.eqb_refl; simpl;
    (destruct (Z.ltb_spec (cursorOffset st) 0); [lia|]);
    (destruct (Z.gtb_spec (cursorOffset st) (JS.length (value p))); [|lia]);
    reflexivity.
Qed.

(** A cursor after the first place and at most at the end has a character
    before it. *)
Lemma character_before_cursor (v : JS.text) (c : Z) :
  0 < c <= JS.length v ->
  exists pre ch post, v = pre ++ ch :: post /\ c = JS.length pre + 1.
Proof.
  intros [Hlo Hhi]. unfold JS.length in *.
  set (n := Z.to_nat (c - 1)).
  assert (Hn : (n < List.length v)%nat) by lia.
  destruct (skipn n v) as [|ch post] eqn:E.
  - apply (f_equal (@List.length ascii)) in E.
    rewrite List.length_skipn in E. simpl in E. lia.
  - exists (firstn n v), ch, post. split.
    + rewrite <- E. symmetry. apply firstn_skipn.
    + rewrite List.length_firstn. lia.
Qed.

(** C9, as amended.  From ["Test"] with the cursor at 4, four [MoveLeft]
    leave the cursor at 0, and a [DeleteLeft] there changes nothing: the
    value is still ["Test"] and the cursor 0 (the same when ["Test"] is typed
    first, as in the test of the repository).  In general [DeleteLeft] with
    the cursor after the first place and at most at the end of the value
    ([0 < cursorOffset <= length]) removes exactly the character before the
    cursor and moves the cursor one to the left; with the cursor at 0 it
    changes neither the value nor the cursor; and with the cursor past the
    end of the value it removes nothing and puts the cursor at the end. *)
Theorem deleteLeft_removes_char_before_cursor :
  pressAll defaultProps (widget "Test" 4)
    [([], keyLeft); ([], keyLeft); ([], keyLeft); ([], keyLeft)]
  = widget "Test" 0
  /\ press defaultProps (widget "Test" 0) [] keyBackspace = widget "Test" 0
  /\ press defaultProps (widget "Test" 0) [] keyDelete = widget "Test" 0
  /\ pressAll defaultProps (widget "" 0)
       [type "T"; type "e"; type "s"; type "t";
        ([], keyLeft); ([], keyLeft); ([], keyLeft); ([], keyLeft);
        ([], keyDelete)]
     = widget "Test" 0
  /\ (forall (p : Props) (st : State) (input : JS.text) (key : Key),
        key = keyBackspace \/ key = keyDelete ->
        0 < cursorOffset st <= JS.length (value p) ->
        exists pre ch post,
          value p = pre ++ ch :: post
          /\ cursorOffset st = JS.length pre + 1
          /\ handleInput p st input key
             = [SetState {| cursorOffset := cursorOffset st - 1;
                            cursorWidth := 0 |};
                OnChange (pre ++ post)])
  /\ (forall (p : Props) (st : State) (input : JS.text) (key : Key)
             (pre post : JS.text) (ch : ascii),
        key = keyBackspace \/ key = keyDelete ->
        value p = pre ++ ch :: post ->
        cursorOffset st = JS.length pre + 1 ->
        handleInput p st input key
        = [SetState {| cursorOffset := JS.length pre; cursorWidth := 0 |};
           OnChange (pre ++ post)])
  /\ (forall (p : Props) (st : State) (input : JS.text) (key : Key),
        key = keyBackspace \/ key = keyDelete ->
        cursorOffset st = 0 ->
        handleInput p st input key
        = [SetState {| cursorOffset := 0; cursorWidth := 0 |}])
  /\ (forall (p : Props) (st : State) (input : JS.text) (key : Key),
        key = keyBackspace \/ key = keyDelete ->
        cursorOffset st > JS.length (value p) ->
        handleInput p st input key
        = [SetState {| cursorOffset := JS.length (value p);
                       cursorWidth := 0 |}]).
Proof.
  split; [reflexivity|]. split; [reflexivity|]. split; [reflexivity|].
  split; [reflexivity|]. split; [|split; [|split]].
  - intros p st input key Hk Hc.
    destruct (character_before_cursor _ _ Hc) as (pre & ch & post & Hv & E).
    exists pre, ch, post. split; [exact Hv|]. split; [exact E|].
    rewrite (handleInput_delete_before p st input key pre post ch Hk Hv E).
    do 3 f_equal. lia.
  - apply handleInput_delete_before.
  - apply handleInput_delete_at_start.
  - apply handleInput_delete_past_end.
Qed.

(** Witness of [deleteLeft_removes_char_before_cursor]: backspace after the
    ["s"] of ["Test"]. *)
Lemma deleteLeft_removes_char_before_cursor_witness :
  handleInput (withValue defaultProps (JS.str "Test"))
    {| cursorOffset := 3; cursorWidth := 0 |} [] keyBackspace
  = [SetState {| cursorOffset := 2; cursorWidth := 0 |};
     OnChange (JS.str "Tet")].
Proof.
  apply (proj1 (proj2 (proj2 (proj2 (proj2 (proj2
           deleteLeft_removes_char_before_cursor)))))
           (withValue defaultProps (JS.str "Test"))
           {| cursorOffset := 3; cursorWidth := 0 |} [] keyBackspace
           (JS.str "Te") (JS.str "t") "s"%char);
    [left; reflexivity | reflexivity | reflexivity].
Defined.

(** C9, as it is stated, fails for a cursor past the end of the value, where
    the right arrow leaves it from the end: after the right arrow at the end
    of ["Test"] the cursor is 5, and backspace there removes no character;
    the value is still ["Test"], and the cursor is set to 4. *)
Lemma deleteLeft_removes_nothing_past_end :
  press defaultProps (widget "Test" 4) [] keyRight = widget "Test" 5
  /\ cursorOffset (inner (widget "Test" 5)) > 0
  /\ handleInput (withValue defaultProps (JS.str "Test"))
       (inner (widget "Test" 5)) [] keyBackspace
     = [SetState {| cursorOffset := 4; cursorWidth := 0 |}]
  /\ press defaultProps (widget "Test" 5) [] keyBackspace = widget "Test" 4.
Proof. repeat split. Qed.

(** ** The right arrow with the cursor hidden *)

(** What is rendered with the cursor hidden, the focus, and a valid
    suggestion for a value that is not empty, the cursor at its end. *)
Lemma render_hidden_ghost (ck : Chalk) (l : JS.text) (p : Props) (st : State)
  (rest : JS.text) :
  showCursor p = false -> focus p = true -> mask p = None ->
  value p <> [] -> cursorOffset st = JS.length (value p) ->
  currentSuggestion p = Some (value p ++ rest) ->
  rest <> []
  /\ ghostText p st = rest
  /\ displayValue ck p st = Some (value p ++ dim ck rest)
  /\ renderHighlighted l p st
     = map (segmentNode l)
         (createSegments (value p) (cursorOffset st) (decorations p) false)
       ++ [TextDim rest].
Proof.
  intros Hs Hf Hm Hne Hc Hv.
  assert (Hr : rest <> []).
  { intros ->. apply (currentSuggestion_differs _ _ Hv). apply app_nil_r. }
  assert (Hg : ghostText p st = rest).
  { unfold ghostText. unfold currentSuggestion in Hv.
    destruct (getSuggestion p) as [suggest|]; [|discriminate].
    rewrite Hf, Hc, Z.eqb_refl, Hv. simpl. apply JSFacts.slice_from_app. }
  assert (Ht : JS.truthy rest = true)
    by (destruct rest; [contradiction | reflexivity]).
  assert (Hlen : (JS.length (value p) =? 0) = false).
  { apply Z.eqb_neq. rewrite JSFacts.length_nil_iff. exact Hne. }
  split; [exact Hr|]. split; [exact Hg|]. split.
  - unfold displayValue, renderedValue.
    rewrite (displayedValue_unmasked p Hm), (length_positive _ Hne).
    rewrite Hs, Hg, Ht. simpl.
    destruct (JS.truthy (placeholder p)); reflexivity.
  - unfold renderHighlighted.
    rewrite (displayedValue_unmasked p Hm), Hlen, Hs, Hf, Hg, Ht, Hc.
    rewrite Z.eqb_refl. reflexivity.
Qed.

(** C10, as amended.  With the cursor hidden the ghost text is computed as
    with the cursor shown (its eligibility depends on the focus and on the
    cursor being at the end of the value only), and it is rendered: with the
    focus, no mask, a value that is not empty, the cursor at its end and a
    valid suggestion, the string rendered without a language is the value
    followed by the rest of the suggestion dimmed, and the render with a
    language ends with the rest of the suggestion dimmed.  [MoveRight] then
    makes no call but the state update, so it accepts nothing and does not
    change the value; it leaves a cursor inside the value's bounds where it
    is, in particular whenever a ghost text is displayed; a cursor stored
    outside the bounds goes to the bound it is beyond. *)
Theorem hidden_cursor_never_accepts :
  forall (p : Props) (st : State) (input : JS.text),
    showCursor p = false ->
    ghostText p st = ghostText (withShowCursor p true) st
    /\ (forall (ck : Chalk) (l rest : JS.text),
          focus p = true -> mask p = None -> value p <> [] ->
          cursorOffset st = JS.length (value p) ->
          currentSuggestion p = Some (value p ++ rest) ->
          rest <> []
          /\ displayValue ck p st = Some (value p ++ dim ck rest)
          /\ renderHighlighted l p st
             = map (segmentNode l)
                 (createSegments (value p) (cursorOffset st) (decorations p)
                    false)
               ++ [TextDim rest])
    /\ handleInput p st input keyRight
       = [SetState
            {| cursorOffset :=
                 if cursorOffset st >? JS.length (value p)
                 then JS.length (value p)
                 else if cursorOffset st <? 0 then 0
                 else cursorOffset st;
               cursorWidth := 0 |}]
    /\ (0 <= cursorOffset st <= JS.length (value p) ->
        handleInput p st input keyRight
        = [SetState {| cursorOffset := cursorOffset st; cursorWidth := 0 |}])
    /\ (ghostText p st <> [] ->
        handleInput p st input keyRight
        = [SetState {| cursorOffset := cursorOffset st; cursorWidth := 0 |}])
    /\ (forall w,
          held (press p w input keyRight) = held w
          /\ (0 <= cursorOffset (inner w) <= JS.length (held w) ->
              cursorOffset (inner (press p w input keyRight))
              = cursorOffset (inner w))).
Proof.
  intros p st input Hsc.
  assert (Hin : 0 <= cursorOffset st <= JS.length (value p) ->
                handleInput p st input keyRight
                = [SetState {| cursorOffset := cursorOffset st;
                               cursorWidth := 0 |}]).
  { intros Hr. rewrite handleInput_right_hidden by exact Hsc.
    destruct (Z.gtb_spec (cursorOffset st) (JS.length (value p))); [lia|].
    destruct (Z.ltb_spec (cursorOffset st) 0); [lia|]. reflexivity. }
  split; [reflexivity|]. split; [|split; [|split; [exact Hin|split]]].
  - intros ck l rest Hf Hm Hne Hc Hv.
    destruct (render_hidden_ghost ck l p st rest Hsc Hf Hm Hne Hc Hv)
      as (H1 & _ & H3 & H4).
    auto.
  - apply handleInput_right_hidden, Hsc.
  - intros Hg. apply Hin.
    destruct (ghostText_at_end p st Hg) as [_ Hc].
    pose proof (JSFacts.length_nonneg (value p)). lia.
  - intros w. unfold press, useInput.
    destruct (focus (withValue p (held w))) eqn:Hf.
    + rewrite handleInput_right_hidden by exact Hsc. simpl.
      rewrite JSFacts.eqb_refl. simpl. split; [reflexivity|].
      intros Hr.
      destruct (Z.gtb_spec (cursorOffset (inner w)) (JS.length (held w)));
        [lia|].
      destruct (Z.ltb_spec (cursorOffset (inner w)) 0); [lia|]. reflexivity.
    + simpl. rewrite JSFacts.eqb_refl. split; reflexivity.
Qed.

(** Witness of [hidden_cursor_never_accepts]: ["sel"] with the cursor hidden
    at its end and the suggestion ["select * from users"]: the ghost text is
    rendered, and the right arrow stores the cursor where it is. *)
Lemma hidden_cursor_never_accepts_witness :
  displayValue ansiChalk (selectProps false)
    {| cursorOffset := 3; cursorWidth := 0 |}
  = Some (JS.str "sel" ++ dim ansiChalk (JS.str "ect * from users"))
  /\ handleInput (selectProps false)
       {| cursorOffset := 3; cursorWidth := 0 |} [] keyRight
     = [SetState {| cursorOffset := 3; cursorWidth := 0 |}].
Proof.
  pose proof (hidden_cursor_never_accepts (selectProps false)
                {| cursorOffset := 3; cursorWidth := 0 |} [] eq_refl)
    as (_ & H2 & _ & H4 & _).
  split.
  - refine (proj1 (proj2 (H2 ansiChalk [] (JS.str "ect * from users")
                            eq_refl eq_refl _ eq_refl eq_refl))).
    discriminate.
  - apply H4. vm_compute. split; discriminate.
Defined.

(** C10, as it is stated, fails for a cursor stored outside the value: with
    the cursor hidden, the value cleared by the caller and the cursor still
    at 2 (the effect leaves it there), the right arrow moves the cursor
    to 0. *)
Lemma hidden_cursor_moved_into_range :
  showCursor clearedHiddenProps = false
  /\ reconcile clearedHiddenProps {| cursorOffset := 2; cursorWidth := 0 |}
     = {| cursorOffset := 2; cursorWidth := 0 |}
  /\ handleInput clearedHiddenProps
       {| cursorOffset := 2; cursorWidth := 0 |} [] keyRight
     = [SetState {| cursorOffset := 0; cursorWidth := 0 |}]
  /\ cursorOffset
       (inner (press clearedHiddenProps
                 {| held := [];
                    inner := {| cursorOffset := 2; cursorWidth := 0 |} |}
                 [] keyRight))
     = 0.
Proof. repeat split. Qed.

(** ** The rendered string, styles apart *)

(** X13.  With colors disabled, the string rendered without a language is
    the placeholder when the displayed value is empty and there is a
    placeholder; otherwise it is the displayed value, then a space when the
    cursor is shown and the value is empty or the cursor is at its end, then
    the ghost text, whatever the cursor and the paste width: styling loses,
    repeats and moves no character. *)
Theorem render_plain_text :
  forall (p : Props) (st : State),
    displayValue plainChalk p st
    = Some
        (if JS.truthy (placeholder p)
            && (JS.length (displayedValue p) =? 0)
         then placeholder p
         else
           displayedValue p
           ++ (if showCursor p && focus p
                  && ((JS.length (displayedValue p) =? 0)
                      || (cursorOffset st =? JS.length (displayedValue p)))
               then JS.str " " else [])
           ++ ghostText p st).
Proof.
  intros p st. unfold displayValue.
  pose proof (JSFacts.length_nonneg (displayedValue p)) as Hn.
  destruct (placeholder p) as [|first rest] eqn:Hp; simpl JS.truthy;
    cbv iota.
  - simpl andb. cbv iota. rewrite renderedValue_plain. reflexivity.
  - destruct (Z.gtb_spec (JS.length (displayedValue p)) 0) as [H|H].
    + destruct (Z.eqb_spec (JS.length (displayedValue p)) 0); [lia|].
      simpl andb. cbv iota. rewrite renderedValue_plain.
      destruct (Z.eqb_spec (JS.length (displayedValue p)) 0); [lia|].
      reflexivity.
    + destruct (Z.eqb_spec (JS.length (displayedValue p)) 0); [|lia].
      simpl andb. cbv iota. unfold renderedPlaceholder. rewrite Hp.
      destruct (showCursor p && focus p); simpl JS.truthy; cbv iota.
      * rewrite slice_from_one. reflexivity.
      * reflexivity.
Qed.

(** ** The provider of the demo *)

Lemma find_first_iff {A : Type} (f : A -> bool) (l : list A) (s : A) :
  find f l = Some s <->
  exists before after,
    l = before ++ s :: after /\ f s = true
    /\ Forall (fun x => f x = false) before.
Proof.
  induction l as [|x l IH]; simpl.
  - split; [discriminate|].
    intros (before & after & E & _). destruct before; discriminate.
  - destruct (f x) eqn:Ex.
    + split.
      * intros [= ->]. exists [], l. auto.
      * intros (before & after & E & Hs & Hb).
        destruct before as [|y before].
        -- injection E as -> _. reflexivity.
        -- injection E as -> _. inversion Hb; subst. congruence.
    + rewrite IH. split.
      * intros (before & after & -> & Hs & Hb).
        exists (x :: before), after. auto.
      * intros (before & after & E & Hs & Hb).
        destruct before as [|y before].
        -- injection E as -> _. congruence.
        -- injection E as -> E. inversion Hb; subst.
           exists before, after. auto.
Qed.

Lemma find_some_exists {A : Type} (f : A -> bool) (l : list A) (x : A) :
  In x l -> f x = true -> exists s, find f l = Some s.
Proof.
  intros Hin Hx. destruct (find f l) as [s|] eqn:E; [eauto|].
  rewrite (find_none f l E x Hin) in Hx. discriminate.
Qed.

(** The test of the demo's [find]: the command extends the text properly. *)
Lemma properlyExtends_iff (cmd lower : JS.text) :
  (JS.startsWith cmd lower && negb (JS.eqb cmd lower)) = true <->
  properlyExtends cmd lower.
Proof.
  unfold properlyExtends.
  rewrite andb_true_iff, negb_true_iff, JSFacts.startsWith_iff,
    JSFacts.eqb_neq.
  split.
  - intros [[rest ->] Hne]. exists rest. split; [|reflexivity].
    intros ->. apply Hne. apply app_nil_r.
  - intros (rest & Hr & ->). split; [eauto|].
    intros H. rewrite <- (app_nil_r lower) in H at 2.
    apply app_inv_head in H. contradiction.
Qed.

Lemma not_properlyExtends_iff (cmd lower : JS.text) :
  (JS.startsWith cmd lower && negb (JS.eqb cmd lower)) = false <->
  ~ properlyExtends cmd lower.
Proof.
  rewrite <- properlyExtends_iff.
  destruct (JS.startsWith cmd lower && negb (JS.eqb cmd lower));
    split; intros H; try reflexivity; try discriminate; auto.
  exfalso. apply H. reflexivity.
Qed.

(** What the provider of the demo returns: the first command that extends
    the input in lower case properly. *)
Lemma demo_getSuggestion_iff (input s : JS.text) :
  Demo.getSuggestion input = Some s <->
  input <> []
  /\ exists before after,
       Demo.sqlCommands = before ++ s :: after
       /\ properlyExtends s (JS.toLowerCase input)
       /\ Forall (fun cmd => ~ properlyExtends cmd (JS.toLowerCase input))
            before.
Proof.
  unfold Demo.getSuggestion.
  destruct (Z.eqb_spec (JS.length input) 0) as [E|E].
  - apply JSFacts.length_nil_iff in E. split; [discriminate|].
    intros [H _]. contradiction.
  - rewrite find_first_iff. rewrite JSFacts.length_nil_iff in E.
    split.
    + intros (before & after & Hl & Hs & Hb). split; [exact E|].
      exists before, after. split; [exact Hl|].
      split; [apply properlyExtends_iff, Hs|].
      eapply Forall_impl; [|exact Hb].
      intros cmd. apply not_properlyExtends_iff.
    + intros (_ & before & after & Hl & Hs & Hb).
      exists before, after. split; [exact Hl|].
      split; [apply properlyExtends_iff, Hs|].
      eapply Forall_impl; [|exact Hb].
      intros cmd. apply not_properlyExtends_iff.
Qed.

(** X22.  The provider of the demo suggests nothing for an empty input, and
    nothing when no command of the list extends the input in lower case
    properly; otherwise it returns the first command of the list that does.
    The component takes the suggestion as valid, and shows it as ghost text,
    exactly when the input is already in lower case: for an input with a
    capital letter the suggestion is discarded.  No command extends another,
    so a command, once accepted, has no suggestion. *)
Theorem demo_suggestions :
  Demo.getSuggestion [] = None
  /\ (forall input s,
        Demo.getSuggestion input = Some s <->
        input <> []
        /\ exists before after,
             Demo.sqlCommands = before ++ s :: after
             /\ properlyExtends s (JS.toLowerCase input)
             /\ Forall
                  (fun cmd => ~ properlyExtends cmd (JS.toLowerCase input))
                  before)
  /\ (forall input cmd,
        input <> [] -> In cmd Demo.sqlCommands ->
        properlyExtends cmd (JS.toLowerCase input) ->
        exists s, Demo.getSuggestion input = Some s)
  /\ (forall input,
        Demo.getSuggestion input = None <->
        input = []
        \/ Forall (fun cmd => ~ properlyExtends cmd (JS.toLowerCase input))
             Demo.sqlCommands)
  /\ (forall input,
        validSuggestion Demo.getSuggestion input
        = if JS.eqb (JS.toLowerCase input) input
          then Demo.getSuggestion input else None)
  /\ (forall cmd, In cmd Demo.sqlCommands -> Demo.getSuggestion cmd = None).
Proof.
  split; [reflexivity|]. split; [apply demo_getSuggestion_iff|].
  split; [|split; [|split]].
  - intros input cmd Hi Hin Hx. unfold Demo.getSuggestion.
    destruct (Z.eqb_spec (JS.length input) 0) as [E|E];
      [apply JSFacts.length_nil_iff in E; contradiction|].
    apply (find_some_exists _ _ cmd Hin). apply properlyExtends_iff, Hx.
  - intros input. unfold Demo.getSuggestion.
    destruct (Z.eqb_spec (JS.length input) 0) as [E|E].
    + apply JSFacts.length_nil_iff in E. split; auto.
    + rewrite JSFacts.length_nil_iff in E. split.
      * intros H. right. apply Forall_forall. intros cmd Hin.
        apply not_properlyExtends_iff. apply (find_none _ _ H cmd Hin).
      * intros [H|H]; [contradiction|].
        destruct (find _ Demo.sqlCommands) as [s|] eqn:Ef; [|reflexivity].
        apply find_some in Ef. destruct Ef as [Hin Hs].
        rewrite Forall_forall in H. exfalso.
        apply (H s Hin). apply properlyExtends_iff, Hs.
  - apply demo_suggestion_valid.
  - apply demo_commands_final.
Qed.

Lemma demo_suggestions_witness :
  exists s, Demo.getSuggestion (JS.str "Select I") = Some s.
Proof.
  apply (proj1 (proj2 (proj2 demo_suggestions)) (JS.str "Select I")
           (JS.str "select id, name from users")).
  - discriminate.
  - right; right; left. reflexivity.
  - exists (JS.str "d, name from users"). split; [discriminate|reflexivity].
Defined.

(** X24.  In the demo, with an input that is not empty, is in lower case and
    is extended properly by some command of the list, and with the cursor at
    its end, the right arrow replaces the input by the first such command
    and puts the cursor at its end; the command then has no ghost text. *)
Theorem demo_accept :
  forall (d : Demo.t) (text cmd : JS.text),
    Demo.value d <> [] ->
    JS.toLowerCase (Demo.value d) = Demo.value d ->
    In cmd Demo.sqlCommands -> properlyExtends cmd (Demo.value d) ->
    cursorOffset (Demo.input d) = JS.length (Demo.value d) ->
    exists before s after,
      Demo.sqlCommands = before ++ s :: after
      /\ properlyExtends s (Demo.value d)
      /\ Forall (fun c => ~ properlyExtends c (Demo.value d)) before
      /\ Demo.press d text keyRight
         = {| Demo.value := s; Demo.submitted := Demo.submitted d;
              Demo.input := {| cursorOffset := JS.length s;
                               cursorWidth := 0 |} |}
      /\ ghostText (Demo.props s)
           {| cursorOffset := JS.length s; cursorWidth := 0 |} = [].
Proof.
  intros d text cmd Hne Hl Hin Hx Hc.
  assert (Hfind : exists s, Demo.getSuggestion (Demo.value d) = Some s).
  { unfold Demo.getSuggestion.
    destruct (Z.eqb_spec (JS.length (Demo.value d)) 0) as [E|E];
      [apply JSFacts.length_nil_iff in E; contradiction|].
    apply (find_some_exists _ _ cmd Hin).
    apply properlyExtends_iff. rewrite Hl. exact Hx. }
  destruct Hfind as [s Hs].
  pose proof (proj1 (demo_getSuggestion_iff _ _) Hs)
    as (_ & before & after & Hlist & Hext & Hb).
  rewrite Hl in Hext, Hb.
  exists before, s, after.
  split; [exact Hlist|]. split; [exact Hext|]. split; [exact Hb|].
  assert (Hv : currentSuggestion (Demo.props (Demo.value d)) = Some s).
  { unfold currentSuggestion. simpl.
    rewrite demo_suggestion_valid, Hl, JSFacts.eqb_refl. exact Hs. }
  pose proof (currentSuggestion_differs _ _ Hv) as Hd. simpl in Hd.
  split.
  - unfold Demo.press, useInput. simpl focus. cbv iota.
    rewrite (handleInput_right_accept (Demo.props (Demo.value d))
               (Demo.input d) text s eq_refl Hc Hv).
    simpl.
    replace (JS.eqb s (Demo.value d)) with false
      by (symmetry; apply JSFacts.eqb_neq; exact Hd).
    f_equal. unfold reconcile. simpl.
    destruct (Z.gtb_spec (JS.length s) (JS.length s - 1)); [|lia].
    reflexivity.
  - assert (Hins : In s Demo.sqlCommands)
      by (rewrite Hlist; apply in_or_app; right; left; reflexivity).
    unfold ghostText. simpl. rewrite Z.eqb_refl.
    unfold validSuggestion. rewrite (demo_commands_final s Hins).
    reflexivity.
Qed.

Lemma demo_accept_witness :
  exists before s after,
    Demo.sqlCommands = before ++ s :: after
    /\ properlyExtends s (JS.str "select ")
    /\ Forall (fun c => ~ properlyExtends c (JS.str "select ")) before
    /\ Demo.press
         {| Demo.value := JS.str "select "; Demo.submitted := [];
            Demo.input := {| cursorOffset := 7; cursorWidth := 0 |} |}
         [] keyRight
       = {| Demo.value := s; Demo.submitted := [];
            Demo.input := {| cursorOffset := JS.length s;
                             cursorWidth := 0 |} |}
    /\ ghostText (Demo.props s)
         {| cursorOffset := JS.length s; cursorWidth := 0 |} = [].
Proof.
  apply (demo_accept
           {| Demo.value := JS.str "select "; Demo.submitted := [];
              Demo.input := {| cursorOffset := 7; cursorWidth := 0 |} |}
           [] (JS.str "select id, name from users")).
  - discriminate.
  - reflexivity.
  - right; right; left. reflexivity.
  - exists (JS.str "id, name from users"). split; [discriminate|reflexivity].
  - reflexivity.
Defined.
